(** * gImageReader: hOCR to PDF export (qt/src/hocr/HOCRPdfExporter.cc)

    A shallow embedding of the layout walk [HOCRPdfExporter::printChildren],
    of the two renderer back ends ([QPainterPDFPainter], [PoDoFoPDFPainter])
    and of the page loop of [HOCRPdfExporter::run], followed by the properties
    of the export stated in the specification.

    Conventions.
    - C++ [double] is IEEE 754 binary64: Rocq's primitive [float], with the
      primitive operations for [+ - * /] and the comparisons.
    - C++ [int] holds pixel coordinates, counts and resolutions; it is
      modelled by [Z].  Signed overflow is undefined in C++ and is outside the
      model.
    - Qt, PoDoFo and the parts of the application that are not in this file
      (the displayer tool, the source manager, the codecs) are collected in
      one record of external operations, [External]. *)

From Stdlib Require Import ZArith String Ascii Bool List Lia.
From Stdlib Require Import Floats.PrimFloat Floats.FloatOps Floats.SpecFloat Floats.FloatAxioms.
From Stdlib Require Import Numbers.Cyclic.Int63.Uint63.
Import ListNotations.
Open Scope Z_scope.
Set Warnings "-register-all".

(** ** C++ scalars *)

Definition double := float.

(** Conversion [int -> double]; exact for every 32-bit value. *)
Definition of_int (z : Z) : double :=
  if z <? 0 then PrimFloat.opp (PrimFloat.of_uint63 (Uint63.of_Z (- z)))
  else PrimFloat.of_uint63 (Uint63.of_Z z).

(** Conversion [double -> int]: truncation toward zero.  The conversion is
    undefined in C++ for a value whose integer part does not fit an int: the
    model gives the integer part of a finite value whatever its size, and
    for an infinity or a NaN what the x86-64 conversion instruction gives
    (the most negative int). *)
Definition to_int (f : double) : Z :=
  match Prim2SF f with
  | S754_zero _ => 0
  | S754_finite s m e =>
      let v := if 0 <=? e then Z.shiftl (Zpos m) e else Z.shiftr (Zpos m) (- e) in
      if s then - v else v
  | _ => -2147483648
  end.

Definition dadd (a b : double) : double := PrimFloat.add a b.
Definition dsub (a b : double) : double := PrimFloat.sub a b.
Definition dmul (a b : double) : double := PrimFloat.mul a b.
Definition ddiv (a b : double) : double := PrimFloat.div a b.
(** [a > b], [a == b] and [a != b] on doubles. *)
Definition dgt (a b : double) : bool := PrimFloat.ltb b a.
Definition deq (a b : double) : bool := PrimFloat.eqb a b.
Definition dne (a b : double) : bool := negb (PrimFloat.eqb a b).

(** A value is finite when it is neither an infinity nor a NaN. *)
Definition is_finite (f : double) : bool :=
  match Prim2SF f with
  | S754_zero _ | S754_finite _ _ _ => true
  | _ => false
  end.

(** ** Qt value types *)

(** [QRect]: left, top, width, height.  [right()] and [bottom()] are Qt's:
    the last column and row inside the rectangle. *)
Record QRect := mkQRect { rx : Z; ry : Z; rwidth : Z; rheight : Z }.

Definition rleft (r : QRect) : Z := rx r.
Definition rtop (r : QRect) : Z := ry r.
Definition rright (r : QRect) : Z := rx r + rwidth r - 1.
Definition rbottom (r : QRect) : Z := ry r + rheight r - 1.

(** [QImage::Format], the members this file names, and the 32-bit format of
    the images the displayer hands over. *)
Inductive Format := Format_Mono | Format_Grayscale8 | Format_RGB888 | Format_ARGB32.

Definition Format_eqb (a b : Format) : bool :=
  match a, b with
  | Format_Mono, Format_Mono | Format_Grayscale8, Format_Grayscale8
  | Format_RGB888, Format_RGB888 | Format_ARGB32, Format_ARGB32 => true
  | _, _ => false
  end.

(** Bits per pixel of a format ([QImage::depth]). *)
Definition depth (f : Format) : Z :=
  match f with
  | Format_Mono => 1
  | Format_Grayscale8 => 8
  | Format_RGB888 => 24
  | Format_ARGB32 => 32
  end.

(** A [QImage]: its geometry and its scan lines, each [bytesPerLine] bytes
    long (bytes are numbers in [0, 256)).  Qt keeps the scan lines one after
    the other in one block, [constBits]. *)
Record QImage := mkQImage {
  format : Format;
  width : Z;
  height : Z;
  bytesPerLine : Z;
  scanLines : list (list Z) }.

Definition constBits (img : QImage) : list Z := concat (scanLines img).

(** [QImage::scanLine(y)]: a pointer into the block, [y] strides from its
    start. *)
Definition scanLine (img : QImage) (y : Z) : list Z :=
  skipn (Z.to_nat (y * bytesPerLine img)) (constBits img).

(** Qt aligns every scan line to 32 bits. *)
Definition alignedBytesPerLine (f : Format) (w : Z) : Z := ((w * depth f + 31) / 32) * 4.

(** The invariants of a non-null [QImage]. *)
Definition validImage (img : QImage) : Prop :=
  0 <= width img /\ 0 <= height img /\
  bytesPerLine img = alignedBytesPerLine (format img) (width img) /\
  Z.of_nat (length (scanLines img)) = height img /\
  Forall (fun row => Z.of_nat (length row) = bytesPerLine img) (scanLines img).

(** [QImage::invertPixels()] for the formats below 32 bits: every byte of a
    scan line that holds pixel data is complemented, the padding is kept. *)
Definition usedBytesPerLine (img : QImage) : Z := (width img * depth (format img) + 7) / 8.

Definition invertRow (used : nat) (row : list Z) : list Z :=
  map (fun b => Z.lxor b 255) (firstn used row) ++ skipn used row.

(** For the 32-bit format the colour bytes are complemented and the alpha byte
    is kept (byte order of a little-endian host). *)
Fixpoint invertRow32 (row : list Z) : list Z :=
  match row with
  | b :: g :: r :: a :: rest => Z.lxor b 255 :: Z.lxor g 255 :: Z.lxor r 255 :: a :: invertRow32 rest
  | _ => row
  end.

Definition invertPixels (img : QImage) : QImage :=
  let rows :=
    if depth (format img) <? 32
    then map (invertRow (Z.to_nat (usedBytesPerLine img))) (scanLines img)
    else map invertRow32 (scanLines img) in
  mkQImage (format img) (width img) (height img) (bytesPerLine img) rows.

(** The sample of pixel [(x, y)] of a [Format_Mono] image: bit [7 - x mod 8]
    (most significant bit first) of byte [x / 8] of scan line [y]. *)
Definition monoPixel (img : QImage) (x y : Z) : bool :=
  Z.testbit (nth (Z.to_nat (x / 8)) (nth (Z.to_nat y) (scanLines img) []) 0) (7 - x mod 8).

(** ** The hOCR item tree (HOCRDocument.hh, read only here) *)

Inductive HOCRItem := mkHOCRItem {
  isEnabled : bool;
  itemClass : string;
  bbox : QRect;
  baseLine : Z;
  fontSize : double;
  text : string;
  children : list HOCRItem }.

(** Structural induction on items: the property holds for an item when it
    holds for all its children. *)
Fixpoint HOCRItem_rect_children (Q : HOCRItem -> Prop)
    (step : forall item, Forall Q (children item) -> Q item)
    (item : HOCRItem) {struct item} : Q item :=
  match item as i return Q i with
  | mkHOCRItem en cls b bl fs t cs =>
      step (mkHOCRItem en cls b bl fs t cs)
           ((fix all (l : list HOCRItem) : Forall Q l :=
               match l with
               | [] => Forall_nil Q
               | c :: rest => Forall_cons c (HOCRItem_rect_children Q step c) (all rest)
               end) cs)
  end.

(** A page is an item with the attributes of its source. *)
Record HOCRPage := mkHOCRPage {
  pageItem : HOCRItem;
  resolution : Z;
  sourceFile : string;
  pageNr : Z;
  angle : double;
  title : string }.

(** ** Export settings ([PDFSettings])

    The structure is declared in HOCRPdfExporter.hh; its fields are the ones
    [run] fills in (lines 354-363). *)

Inductive Compression := CompressZip | CompressFax4 | CompressJpeg.

Inductive ConversionFlags := AutoColor | ThresholdDither | DiffuseDither.

Record PDFSettings := mkPDFSettings {
  colorFormat : Format;
  conversionFlags : ConversionFlags;
  compression : Compression;
  compressionQuality : Z;
  useDetectedFontSizes : bool;
  uniformizeLineSpacing : bool;
  preserveSpaceWidth : Z;
  overlay : bool;
  detectedFontScaling : double }.

(** ** The renderer interface ([HOCRPdfExporter::PDFPainter]) *)

Class PDFPainter (P : Type) := {
  setFontSize : double -> P -> P;
  drawText : double -> double -> string -> P -> P;
  drawImage : QRect -> QImage -> PDFSettings -> P -> P;
  getAverageCharWidth : P -> double;
  getTextWidth : string -> P -> double }.

(** The calls a client issues against the interface. *)
Inductive Call :=
| CallSetFontSize (pointSize : double)
| CallDrawText (x y : double) (text : string)
| CallDrawImage (bbox : QRect) (image : QImage) (settings : PDFSettings).

(** A renderer that forwards to another one and keeps the calls it received,
    oldest first. *)
Record Recorder (P : Type) := mkRecorder { inner : P; calls : list Call }.
Arguments mkRecorder {P} _ _.
Arguments inner {P} _.
Arguments calls {P} _.

#[export] Instance Recorder_PDFPainter (P : Type) `{PDFPainter P} : PDFPainter (Recorder P) := {
  setFontSize pt r := mkRecorder (setFontSize pt (inner r)) (calls r ++ [CallSetFontSize pt]);
  drawText x y t r := mkRecorder (drawText x y t (inner r)) (calls r ++ [CallDrawText x y t]);
  drawImage b i s r := mkRecorder (drawImage b i s (inner r)) (calls r ++ [CallDrawImage b i s]);
  getAverageCharWidth r := getAverageCharWidth (inner r);
  getTextWidth t r := getTextWidth t (inner r) }.

(** ** The layout walk ([HOCRPdfExporter::printChildren]) *)

Section Layout.
Context {P : Type} `{PDFPainter P}.
(** [m_displayerTool->getSelection]: the pixels of a region of the page
    that is set up in the displayer. *)
Variable getSelection : QRect -> QImage.
Variable pdfSettings : PDFSettings.
Variable imgScale : double.

(** The variables of the word loop of a uniformly spaced paragraph. *)
Record WordCursor := mkWordCursor { cur_x : Z; cur_prevWordRight : Z; cur_painter : P }.

(** Lines 434-436 and 453-455: the font size of a word. *)
Definition applyWordFont (wordItem : HOCRItem) (painter : P) : P :=
  if useDetectedFontSizes pdfSettings
  then setFontSize (dmul (fontSize wordItem) (detectedFontScaling pdfSettings)) painter
  else painter.

(** The gap test of line 438. *)
Definition gapThreshold (painter : P) : double :=
  dmul (of_int (preserveSpaceWidth pdfSettings)) (getAverageCharWidth painter).

Definition keepsSpace (wordRect : QRect) (prevWordRight : Z) (painter : P) : bool :=
  dgt (of_int (rx wordRect - prevWordRight)) (gapThreshold painter).

(** One iteration of the word loop (lines 429-444). *)
Definition uniformWord (y : double) (baseline : Z) (st : WordCursor) (wordItem : HOCRItem)
  : WordCursor :=
  if negb (isEnabled wordItem) then st
  else
    let wordRect := bbox wordItem in
    let painter1 := applyWordFont wordItem (cur_painter st) in
    let x1 :=
      if keepsSpace wordRect (cur_prevWordRight st) painter1
      then rx wordRect
      else cur_x st in
    let prevWordRight := rright wordRect in
    let painter2 := drawText (of_int x1) (dadd y (of_int baseline)) (text wordItem) painter1 in
    let x2 := to_int (dadd (of_int x1) (getTextWidth (text wordItem ++ " ")%string painter2)) in
    mkWordCursor x2 prevWordRight painter2.

(** One iteration of the line loop (lines 425-446): the body, then
    [y += yInc]. *)
Definition uniformLine (itemRect : QRect) (yInc : double) (baseline : Z)
    (st : double * P) (lineItem : HOCRItem) : double * P :=
  let '(y, painter) := st in
  let start := mkWordCursor (rx itemRect) (rx itemRect) painter in
  let done := fold_left (uniformWord y baseline) (children lineItem) start in
  (dadd y yInc, cur_painter done).

(** The branch for a paragraph with uniform line spacing (lines 421-446). *)
Definition printUniformParagraph (item : HOCRItem) (painter : P) : P :=
  let itemRect := bbox item in
  let childCount := Z.of_nat (length (children item)) in
  let yInc := ddiv (of_int (rheight itemRect)) (of_int childCount) in
  let y := dadd (of_int (rtop itemRect)) yInc in
  let baseline :=
    if childCount >? 0
    then match children item with
         | c :: _ => baseLine c
         | [] => 0 (* children()[0] of an empty list: excluded by the test *)
         end
    else 0 in
  snd (fold_left (uniformLine itemRect yInc baseline) (children item) (y, painter)).

(** One iteration of the word loop of a line drawn at its own place
    (lines 451-456). *)
Definition literalWord (y : double) (painter : P) (wordItem : HOCRItem) : P :=
  let wordRect := bbox wordItem in
  let painter1 := applyWordFont wordItem painter in
  drawText (of_int (rx wordRect)) y (text wordItem) painter1.

(** The branch for a line without uniform spacing (lines 448-457). *)
Definition printLine (item : HOCRItem) (painter : P) : P :=
  let baseline := baseLine item in
  let y := of_int (rbottom (bbox item) + baseline) in
  fold_left (literalWord y) (children item) painter.

(** The branch for a graphic outside overlay mode (lines 459-460). *)
Definition printGraphic (item : HOCRItem) (painter : P) : P :=
  let itemRect := bbox item in
  let scaledItemRect :=
    mkQRect (to_int (dmul (of_int (rleft itemRect)) imgScale))
            (to_int (dmul (of_int (rtop itemRect)) imgScale))
            (to_int (dmul (of_int (rwidth itemRect)) imgScale))
            (to_int (dmul (of_int (rheight itemRect)) imgScale)) in
  drawImage itemRect (getSelection scaledItemRect) pdfSettings painter.

Fixpoint printChildren (item : HOCRItem) (painter : P) {struct item} : P :=
  if negb (isEnabled item) then painter
  else if (itemClass item =? "ocr_par")%string && uniformizeLineSpacing pdfSettings
  then printUniformParagraph item painter
  else if (itemClass item =? "ocr_line")%string && negb (uniformizeLineSpacing pdfSettings)
  then printLine item painter
  else if (itemClass item =? "ocr_graphic")%string && negb (overlay pdfSettings)
  then printGraphic item painter
  else
    (fix loop (cs : list HOCRItem) (p : P) {struct cs} : P :=
       match cs with
       | [] => p
       | c :: rest => loop rest (printChildren c p)
       end) (children item) painter.
End Layout.

Arguments WordCursor : clear implicits.

(** ** The layout walk with the undefined operations of C++

    [printChildren] once more, with the two operations of the walk that
    C++ leaves undefined made explicit: [QList::operator[]] outside the list,
    and the operator [/] on two ints with a zero divisor.  A computation
    stops at the first of them. *)

Inductive Fault := DivisionByZero | IndexOutOfRange.

Definition Checked (A : Type) : Type := (Fault + A)%type.

Definition ok {A : Type} (a : A) : Checked A := inr a.

Definition fault {A : Type} (f : Fault) : Checked A := inl f.

Definition andThen {A B : Type} (c : Checked A) (k : A -> Checked B) : Checked B :=
  match c with
  | inl f => inl f
  | inr a => k a
  end.

Notation "x <- c ;; k" := (andThen c (fun x => k))
  (at level 61, c at next level, right associativity).

(** An operand of an arithmetic operator: an int or a double. *)
Inductive Number := IntValue (z : Z) | DoubleValue (d : double).

Definition toDouble (n : Number) : double :=
  match n with
  | IntValue z => of_int z
  | DoubleValue d => d
  end.

(** The operator [/] after the usual arithmetic conversions: the division of
    ints on two ints, undefined for the divisor zero; the division of
    doubles as soon as one operand is a double. *)
Definition divide (a b : Number) : Checked Number :=
  match a, b with
  | IntValue x, IntValue y =>
      if y =? 0 then fault DivisionByZero else ok (IntValue (Z.quot x y))
  | _, _ => ok (DoubleValue (ddiv (toDouble a) (toDouble b)))
  end.

(** [QList::operator[]]. *)
Definition listAt {A : Type} (l : list A) (i : Z) : Checked A :=
  if i <? 0 then fault IndexOutOfRange
  else match nth_error l (Z.to_nat i) with
       | Some x => ok x
       | None => fault IndexOutOfRange
       end.

(** [for(int i = first; ...; ++i) body], for the iterations that are left. *)
Fixpoint forLoop {S : Type} (iterations : nat) (i : Z) (body : Z -> S -> Checked S) (s : S)
    {struct iterations} : Checked S :=
  match iterations with
  | O => ok s
  | Datatypes.S rest => s' <- body i s ;; forLoop rest (i + 1) body s'
  end.

(** [for(int i = 0; i < n; ++i) body]. *)
Definition forRange {S : Type} (n : Z) (body : Z -> S -> Checked S) (s : S) : Checked S :=
  forLoop (Z.to_nat n) 0 body s.

Section CheckedLayout.
Context {P : Type} `{PDFPainter P}.
Variable getSelection : QRect -> QImage.
Variable pdfSettings : PDFSettings.
Variable imgScale : double.

(** Lines 428-445. *)
Definition uniformWordsChecked (y : double) (baseline : Z) (lineItem : HOCRItem)
    (start : WordCursor P) : Checked (WordCursor P) :=
  let nWords := Z.of_nat (length (children lineItem)) in
  forRange nWords
    (fun iWord st =>
       wordItem <- listAt (children lineItem) iWord ;;
       ok (uniformWord pdfSettings y baseline st wordItem))
    start.

(** Lines 426-445, and [y += yInc]. *)
Definition uniformLineChecked (itemRect : QRect) (yInc : double) (baseline : Z)
    (lineItem : HOCRItem) (st : double * P) : Checked (double * P) :=
  let '(y, painter) := st in
  done <- uniformWordsChecked y baseline lineItem
            (mkWordCursor (rx itemRect) (rx itemRect) painter) ;;
  ok (dadd y yInc, cur_painter done).

(** Lines 421-446. *)
Definition printUniformParagraphChecked (item : HOCRItem) (painter : P) : Checked P :=
  let itemRect := bbox item in
  let childCount := Z.of_nat (length (children item)) in
  quotient <- divide (DoubleValue (of_int (rheight itemRect))) (IntValue childCount) ;;
  let yInc := toDouble quotient in
  let y := dadd (of_int (rtop itemRect)) yInc in
  baseline <- (if childCount >? 0
               then first <- listAt (children item) 0 ;; ok (baseLine first)
               else ok 0) ;;
  st <- forRange childCount
          (fun iLine st =>
             lineItem <- listAt (children item) iLine ;;
             uniformLineChecked itemRect yInc baseline lineItem st)
          (y, painter) ;;
  ok (snd st).

(** Lines 448-457. *)
Definition printLineChecked (item : HOCRItem) (painter : P) : Checked P :=
  let baseline := baseLine item in
  let y := of_int (rbottom (bbox item) + baseline) in
  let nWords := Z.of_nat (length (children item)) in
  forRange nWords
    (fun iWord painter =>
       wordItem <- listAt (children item) iWord ;;
       ok (literalWord pdfSettings y painter wordItem))
    painter.

(** Lines 413-466.  The last loop takes the children in the order of their
    indices, [0] to [size() - 1]. *)
Fixpoint printChildrenChecked (item : HOCRItem) (painter : P) {struct item} : Checked P :=
  if negb (isEnabled item) then ok painter
  else if (itemClass item =? "ocr_par")%string && uniformizeLineSpacing pdfSettings
  then printUniformParagraphChecked item painter
  else if (itemClass item =? "ocr_line")%string && negb (uniformizeLineSpacing pdfSettings)
  then printLineChecked item painter
  else if (itemClass item =? "ocr_graphic")%string && negb (overlay pdfSettings)
  then ok (printGraphic getSelection pdfSettings imgScale item painter)
  else
    (fix loop (cs : list HOCRItem) (p : P) {struct cs} : Checked P :=
       match cs with
       | [] => ok p
       | c :: rest => p' <- printChildrenChecked c p ;; loop rest p'
       end) (children item) painter.
End CheckedLayout.

(** ** The PDF container (PoDoFo), as far as the exporter drives it *)

Inductive ColorSpace := DeviceRGB | DeviceGray.

Inductive PdfFilter := FlateDecode | DCTDecode | CCITTFaxDecode.

(** An image object: its dictionary entries and the bytes handed to the
    container.  [img_raw] tells [SetImageDataRaw] (bytes stored as they are)
    from [SetImageData] (bytes the container compresses with the filter). *)
Record PdfImage := mkPdfImage {
  img_colorSpace : ColorSpace;
  img_width : Z;
  img_height : Z;
  img_bitsPerComponent : Z;
  img_filter : PdfFilter;
  img_decodeParms : option (Z * Z * Z);
  img_raw : bool;
  img_data : list Z }.

(** The operators written to a page's content stream. *)
Inductive PdfOp :=
| PdfDrawText (x y : double) (pdfString : string)
| PdfDrawImage (x y : double) (image : PdfImage) (scaleX scaleY : double).

Record PdfPage := mkPdfPage {
  pageWidth : double;
  pageHeight : double;
  pageContent : list PdfOp }.

(** What the displayer is set up to show: page number, resolution, angle. *)
Record DisplayerSetup := mkDisplayerSetup { setupPage : Z; setupDpi : Z; setupAngle : double }.

(** ** External operations *)

Record External := mkExternal {
  (** Qt: [QImage::convertToFormat], the JPEG writer and reader behind
      [QImage::save] and [QImage::fromData], and the metrics of the painter's
      font at a point size. *)
  convertToFormat : QImage -> Format -> ConversionFlags -> QImage;
  jpegSave : QImage -> Z -> list Z;
  jpegLoad : list Z -> QImage;
  qtAverageCharWidth : Z -> Z;
  qtTextWidth : Z -> string -> Z;
  (** PoDoFo: the metrics of the document font at a font size, and
      [PdfStreamedDocument::Close], which returns the message of the
      [PdfError] it throws, if it throws. *)
  pdfCharWidth : double -> ascii -> double;
  pdfStringWidth : double -> string -> double;
  documentClose : list PdfPage -> option string;
  (** The application: [CCITTFax4Encoder::encode], the displayer tool's
      [getSelection] and the source manager's [addSource]. *)
  ccittEncode : list Z -> Z -> Z -> Z -> list Z;
  getSelection : DisplayerSetup -> QRect -> QImage;
  addSource : string -> bool }.

(** What the exporter relies on from [QImage::convertToFormat]: a non-null
    image of the target format and of the size of its input. *)
Definition convertsFaithfully (E : External) : Prop :=
  forall image targetFormat flags,
    0 <= width image -> 0 <= height image ->
    let img := convertToFormat E image targetFormat flags in
    validImage img /\ format img = targetFormat /\
    width img = width image /\ height img = height image.

(** ** The renderer back ends *)

Section Backends.
Variable E : External.

(** Modelled from the spec: [PDFPainter::convertedImage] is declared in
    HOCRPdfExporter.hh, which is not among the sources.  Section 4.2:
    the input is an arbitrary decoded bitmap, the output a bitmap in exactly
    the target sample format, converted with the requested dithering mode;
    no resizing occurs. *)
Definition convertedImage (image : QImage) (targetFormat : Format) (flags : ConversionFlags)
  : QImage :=
  convertToFormat E image targetFormat flags.

(** *** The preview back end ([QPainterPDFPainter], lines 52-88) *)

Inductive CanvasOp :=
| CanvasText (x y : Z) (text : string) (pointSize : Z)
| CanvasImage (target : QRect) (img : QImage).

Record QPainterPDFPainter := mkQPainterPDFPainter {
  qp_fontPointSize : Z;
  qp_canvas : list CanvasOp;
  m_curFontSize : Z }.

Definition QPainterPDFPainter_new (fontPointSize : Z) : QPainterPDFPainter :=
  mkQPainterPDFPainter fontPointSize [] fontPointSize.

(** Lines 57-64.  [QFont::setPointSize(int)] takes the size truncated, and
    ignores one that is not positive. *)
Definition QPainter_setFontSize (pointSize : double) (p : QPainterPDFPainter) :=
  if dne pointSize (of_int (m_curFontSize p))
  then
    let size := to_int pointSize in
    mkQPainterPDFPainter (if 0 <? size then size else qp_fontPointSize p)
                         (qp_canvas p) size
  else p.

(** [QPainter::drawText(int, int, const QString&)] is the overload that
    takes the two doubles. *)
Definition QPainter_drawText (x y : double) (text : string) (p : QPainterPDFPainter) :=
  mkQPainterPDFPainter (qp_fontPointSize p)
    (qp_canvas p ++ [CanvasText (to_int x) (to_int y) text (qp_fontPointSize p)])
    (m_curFontSize p).

(** The image the preview paints (lines 69-75). *)
Definition QPainter_image (image : QImage) (settings : PDFSettings) : QImage :=
  let img := convertedImage image (colorFormat settings) (conversionFlags settings) in
  match compression settings with
  | CompressJpeg => jpegLoad E (jpegSave E img (compressionQuality settings))
  | _ => img
  end.

Definition QPainter_drawImage (bbox : QRect) (image : QImage) (settings : PDFSettings)
    (p : QPainterPDFPainter) :=
  mkQPainterPDFPainter (qp_fontPointSize p)
    (qp_canvas p ++ [CanvasImage bbox (QPainter_image image settings)])
    (m_curFontSize p).

#[export] Instance QPainter_PDFPainter : PDFPainter QPainterPDFPainter := {
  setFontSize := QPainter_setFontSize;
  drawText := QPainter_drawText;
  drawImage := QPainter_drawImage;
  getAverageCharWidth p := of_int (qtAverageCharWidth E (qp_fontPointSize p));
  getTextWidth t p := of_int (qtTextWidth E (qp_fontPointSize p) t) }.

(** *** The file back end ([PoDoFoPDFPainter], lines 114-188) *)

(** The painter works on one page; the font is the document's. *)
Record PoDoFoPDFPainter := mkPoDoFoPDFPainter {
  m_page : PdfPage;
  m_fontSize : double;
  m_scaleFactor : double;
  m_pageHeight : double }.

Definition PoDoFoPDFPainter_new (page : PdfPage) (fontSize scaleFactor : double) :=
  mkPoDoFoPDFPainter page fontSize scaleFactor (pageHeight page).

Definition emit (op : PdfOp) (p : PoDoFoPDFPainter) : PoDoFoPDFPainter :=
  mkPoDoFoPDFPainter
    (mkPdfPage (pageWidth (m_page p)) (pageHeight (m_page p)) (pageContent (m_page p) ++ [op]))
    (m_fontSize p) (m_scaleFactor p) (m_pageHeight p).

Definition PoDoFo_setFontSize (pointSize : double) (p : PoDoFoPDFPainter) :=
  mkPoDoFoPDFPainter (m_page p) pointSize (m_scaleFactor p) (m_pageHeight p).

(** The [PdfString] constructor reads a C string: up to the first NUL. *)
Fixpoint c_str (s : string) : string :=
  match s with
  | EmptyString => EmptyString
  | String c rest => if Ascii.eqb c Ascii.zero then EmptyString else String c (c_str rest)
  end.

Definition PoDoFo_drawText (x y : double) (text : string) (p : PoDoFoPDFPainter) :=
  emit (PdfDrawText (dmul x (m_scaleFactor p))
                    (dsub (m_pageHeight p) (dmul y (m_scaleFactor p)))
                    (c_str text)) p.

(** [std::memcpy(dst + off, src, n)]. *)
Definition memcpy (dst : list Z) (off : nat) (src : list Z) (n : nat) : list Z :=
  firstn off dst ++ firstn n src ++ skipn (off + n) dst.

Definition sampleSize (settings : PDFSettings) : Z :=
  if Format_eqb (colorFormat settings) Format_Mono then 1 else 8.

Definition numComponents (settings : PDFSettings) : Z :=
  if Format_eqb (colorFormat settings) Format_RGB888 then 3 else 1.

(** Line 144. [/] and [%] are C++'s, truncating. *)
Definition zipBytesPerLine (settings : PDFSettings) (width : Z) : Z :=
  numComponents settings *
  (Z.quot (width * sampleSize settings) 8 +
   (if Z.rem (width * sampleSize settings) 8 =? 0 then 0 else 1)).

(** Lines 145-148: the buffer and the copy loop. *)
Definition zipBuffer (img : QImage) (bytesPerLine height : Z) : list Z :=
  fold_left
    (fun buf y =>
       memcpy buf (Z.to_nat (Z.of_nat y * bytesPerLine))
              (scanLine img (Z.of_nat y)) (Z.to_nat bytesPerLine))
    (seq 0 (Z.to_nat height))
    (repeat 0 (Z.to_nat (bytesPerLine * height))).

(** Lines 128-131: the image every compression path starts from. *)
Definition PoDoFo_samples (image : QImage) (settings : PDFSettings) : QImage :=
  let img := convertedImage image (colorFormat settings) (conversionFlags settings) in
  if Format_eqb (colorFormat settings) Format_Mono then invertPixels img else img.

(** Lines 137-172: the image object. *)
Definition PoDoFo_pdfImage (img : QImage) (settings : PDFSettings) : PdfImage :=
  let colorSpace := if Format_eqb (format img) Format_RGB888 then DeviceRGB else DeviceGray in
  let width := width img in
  let height := height img in
  let sampleSize := sampleSize settings in
  match compression settings with
  | CompressZip =>
      let bytesPerLine := zipBytesPerLine settings width in
      mkPdfImage colorSpace width height sampleSize FlateDecode None false
                 (firstn (Z.to_nat (bytesPerLine * height)) (zipBuffer img bytesPerLine height))
  | CompressJpeg =>
      mkPdfImage colorSpace width height sampleSize DCTDecode None true
                 (jpegSave E img (compressionQuality settings))
  | CompressFax4 =>
      mkPdfImage colorSpace width height sampleSize CCITTFaxDecode
                 (Some (width, height, -1)) true
                 (ccittEncode E (constBits img) width height (bytesPerLine img))
  end.

(** Line 173. *)
Definition PoDoFo_drawImage (bbox : QRect) (image : QImage) (settings : PDFSettings)
    (p : PoDoFoPDFPainter) :=
  let img := PoDoFo_samples image settings in
  let pdfImage := PoDoFo_pdfImage img settings in
  emit (PdfDrawImage
          (dmul (of_int (rx bbox)) (m_scaleFactor p))
          (dsub (m_pageHeight p) (dmul (of_int (ry bbox + rheight bbox)) (m_scaleFactor p)))
          pdfImage
          (ddiv (dmul (m_scaleFactor p) (of_int (rwidth bbox))) (of_int (width image)))
          (ddiv (dmul (m_scaleFactor p) (of_int (rheight bbox))) (of_int (height image)))) p.

#[export] Instance PoDoFo_PDFPainter : PDFPainter PoDoFoPDFPainter := {
  setFontSize := PoDoFo_setFontSize;
  drawText := PoDoFo_drawText;
  drawImage := PoDoFo_drawImage;
  getAverageCharWidth p := ddiv (pdfCharWidth E (m_fontSize p) "x"%char) (m_scaleFactor p);
  getTextWidth t p := ddiv (pdfStringWidth E (m_fontSize p) (c_str t)) (m_scaleFactor p) }.
End Backends.

(** ** The export run ([HOCRPdfExporter::run]) *)

(** The state of the dialog's widgets the run reads. *)
Record Ui := mkUi {
  comboBoxImageFormat : Format;
  comboBoxDithering : ConversionFlags;
  comboBoxImageCompression : Compression;
  spinBoxCompressionQuality : Z;
  checkBoxFontSize : bool;
  checkBoxUniformizeSpacing : bool;
  spinBoxPreserve : Z;
  comboBoxOutputMode : Z;
  spinFontScaling : Z;
  spinBoxDpi : Z;
  fontPointSize : Z;
  checkBoxOpenOutputPdf : bool }.

(** [QMessageBox::warning(MAIN, title, text)]. *)
Inductive Message := Warning (title text : string).

(** What a run leaves behind: the value it returns, the pages of the document
    at the moment it is closed, the message boxes shown after the dialog, in
    order, and whether the result was handed to the desktop. *)
Record RunResult := mkRunResult {
  returned : bool;
  documentPages : list PdfPage;
  messages : list Message;
  openedOutput : bool }.

(** The variables of the page loop: the document, the document's font and
    the list [failed]. *)
Record PageLoop := mkPageLoop {
  loop_pages : list PdfPage;
  loop_fontSize : double;
  loop_failed : list string }.

Definition newline : string := String (ascii_of_nat 10) EmptyString.

Section Run.
Variable E : External.
Variable ui : Ui.

(** Lines 354-363. *)
Definition readSettings : PDFSettings :=
  let colorFormat := comboBoxImageFormat ui in
  mkPDFSettings
    colorFormat
    (if Format_eqb colorFormat Format_Mono then comboBoxDithering ui else AutoColor)
    (comboBoxImageCompression ui)
    (spinBoxCompressionQuality ui)
    (checkBoxFontSize ui)
    (checkBoxUniformizeSpacing ui)
    (spinBoxPreserve ui)
    (comboBoxOutputMode ui =? 1)
    (ddiv (of_int (spinFontScaling ui)) (of_int 100)).

Definition docScale (sourceDpi : Z) : double := ddiv (of_int 72) (of_int sourceDpi).

(** Lines 374-389: a page whose source is available.  The result is the
    finished page and the size the document's font is left at. *)
Definition exportPage (pdfSettings : PDFSettings) (fontSize : double) (page : HOCRPage)
  : PdfPage * double :=
  let bbox := bbox (pageItem page) in
  let sourceDpi := resolution page in
  let outputDpi := spinBoxDpi ui in
  let setup := mkDisplayerSetup (pageNr page) outputDpi (angle page) in
  let docScale := docScale sourceDpi in
  let imgScale := ddiv (of_int outputDpi) (of_int sourceDpi) in
  let pdfpage :=
    mkPdfPage (dmul (of_int (rwidth bbox)) docScale) (dmul (of_int (rheight bbox)) docScale) [] in
  let pdfprinter := PoDoFoPDFPainter_new pdfpage fontSize docScale in
  let pdfprinter := PoDoFo_setFontSize (of_int (fontPointSize ui)) pdfprinter in
  let pdfprinter :=
    @printChildren _ (PoDoFo_PDFPainter E) (getSelection E setup) pdfSettings imgScale
                   (pageItem page) pdfprinter in
  let pdfprinter :=
    if overlay pdfSettings
    then
      let scaledBBox :=
        mkQRect (to_int (dmul imgScale (of_int (rleft bbox))))
                (to_int (dmul imgScale (of_int (rtop bbox))))
                (to_int (dmul imgScale (of_int (rwidth bbox))))
                (to_int (dmul imgScale (of_int (rheight bbox)))) in
      PoDoFo_drawImage E bbox (getSelection E setup scaledBBox) pdfSettings pdfprinter
    else pdfprinter in
  (m_page pdfprinter, m_fontSize pdfprinter).

(** Lines 366-392: one iteration of the page loop. *)
Definition pageStep (pdfSettings : PDFSettings) (st : PageLoop) (page : HOCRPage) : PageLoop :=
  if negb (isEnabled (pageItem page)) then st
  else if addSource E (sourceFile page)
  then
    let '(pdfpage, fontSize) := exportPage pdfSettings (loop_fontSize st) page in
    mkPageLoop (loop_pages st ++ [pdfpage]) fontSize (loop_failed st)
  else mkPageLoop (loop_pages st) (loop_fontSize st) (loop_failed st ++ [title page]).

(** Line 395. *)
Definition failedMessage (failed : list string) : Message :=
  Warning "Errors occurred"
          ("The following pages could not be rendered:" ++ newline ++ String.concat newline failed).

(** Line 403. *)
Definition closeMessage (what : string) : Message :=
  Warning "Export failed" ("The PDF export failed (" ++ what ++ ").").

(** The run, from the end of the dialog loop (lines 345-410).  [accepted]
    is the outcome of that loop: the user confirmed, and the document and its
    font (at PoDoFo's initial size, 12) were created. *)
Definition run (accepted : bool) (hocrdocument : list HOCRPage) : RunResult :=
  if negb accepted then mkRunResult false [] [] false
  else
    let pdfSettings := readSettings in
    let st := fold_left (pageStep pdfSettings) hocrdocument (mkPageLoop [] (of_int 12) []) in
    let failed := loop_failed st in
    let warned := match failed with [] => [] | _ :: _ => [failedMessage failed] end in
    match documentClose E (loop_pages st) with
    | None =>
        mkRunResult true (loop_pages st) warned (checkBoxOpenOutputPdf ui)
    | Some what =>
        mkRunResult false (loop_pages st) (warned ++ [closeMessage what]) false
    end.
End Run.

(** ** The dialog loop of [run] (lines 280-350) *)

(** What the user and the libraries answer in one round of the loop: the
    result of [exec()], the name the save dialog returns (empty when it is
    cancelled), whether the [PdfStreamedDocument] constructor returns, and
    whether [CreateFontSubset] yields a font. *)
Record DialogResponse := mkDialogResponse {
  execAccepted : bool;
  chosenName : string;
  documentCreated : bool;
  fontCreated : bool }.

(** What the loop does that can be seen from outside. *)
Inductive DialogEvent :=
| SaveDialogShown (suggestion : string)
| CriticalShown (title text : string)
| DocumentOpened (outname : string)
| DocumentClosed (outname : string).

(** The variables of [run] when the loop is left. *)
Record DialogOutcome := mkDialogOutcome {
  dlg_accepted : bool;
  dlg_filebasename : string;
  dlg_outname : string;
  dlg_events : list DialogEvent }.

Section Dialog.
(** [QFileInfo::baseName] and [QFileInfo::completeBaseName], and the display
    names of the selected sources. *)
Variable baseName : string -> string.
Variable completeBaseName : string -> string.
Variable selectedSources : list string.

(** Lines 295-299. *)
Definition suggestedName (filebasename : string) : string :=
  if (filebasename =? "")%string
  then match selectedSources with
       | displayname :: _ => baseName displayname
       | [] => "output"%string
       end
  else filebasename.

(** Lines 289-343.  The loop runs once per response; without a response the
    dialog is still open and there is no outcome. *)
Fixpoint dialogLoop (responses : list DialogResponse) (filebasename outname : string)
    (events : list DialogEvent) {struct responses} : option DialogOutcome :=
  match responses with
  | [] => None
  | r :: rest =>
      if negb (execAccepted r)
      then Some (mkDialogOutcome false filebasename outname events)
      else
        let suggestion := suggestedName filebasename in
        let events := events ++ [SaveDialogShown (suggestion ++ ".pdf")] in
        let outname := chosenName r in
        if (outname =? "")%string
        then Some (mkDialogOutcome false filebasename outname events)
        else
          let filebasename := completeBaseName outname in
          if negb (documentCreated r)
          then dialogLoop rest filebasename outname
                 (events ++
                  [CriticalShown "Failed to save output"
                     "Check that you have writing permissions in the selected folder."])
          else if negb (fontCreated r)
          then dialogLoop rest filebasename outname
                 (events ++
                  [DocumentOpened outname;
                   CriticalShown "Error" "The PDF library does not support the selected font.";
                   DocumentClosed outname])
          else Some (mkDialogOutcome true filebasename outname
                       (events ++ [DocumentOpened outname]))
  end.
End Dialog.

(** ** The preview ([HOCRPdfExporter::updatePreview], lines 468-508) *)

(** How the preview image is filled: [image.fill(Qt::white)], or the white
    rectangle of alpha 127 painted over the page image. *)
Inductive CanvasFill := FillWhite | FillVeil.

(** The image handed to the preview item: its size, its resolution, what it
    was filled with, how many operations were painted before the fill, and
    all the operations painted, oldest first. *)
Record PreviewPixmap := mkPreviewPixmap {
  pix_width : Z;
  pix_height : Z;
  pix_dotsPerMeter : Z;
  pix_fill : CanvasFill;
  pix_paintedBeforeFill : nat;
  pix_canvas : list CanvasOp }.

(** The preview item [m_preview]. *)
Record PreviewItem := mkPreviewItem {
  pv_visible : bool;
  pv_pixmap : option PreviewPixmap;
  pv_pos : double * double }.

Section Preview.
Variable E : External.
Variable ui : Ui.
(** [ui.checkBoxPreview], the set-up of the displayer at the time, and the
    default of the parameter [imgScale] of [printChildren], which is declared
    in HOCRPdfExporter.hh. *)
Variable checkBoxPreview : bool.
Variable setup : DisplayerSetup.
Variable defaultImgScale : double.

(** Lines 476-506: the image of the preview page. *)
Definition renderPreview (page : HOCRPage) : PreviewPixmap :=
  let bbox := bbox (pageItem page) in
  let pageDpi := resolution page in
  let pdfSettings := readSettings ui in
  let dotsPerMeter := to_int (ddiv (of_int pageDpi) (ddiv (of_int 254) (of_int 10000))) in
  let pdfPrinter := QPainterPDFPainter_new (fontPointSize ui) in
  let pdfPrinter :=
    if overlay pdfSettings
    then QPainter_drawImage E bbox (getSelection E setup bbox) pdfSettings pdfPrinter
    else pdfPrinter in
  let paintedBeforeFill := length (qp_canvas pdfPrinter) in
  let pdfPrinter :=
    @printChildren _ (QPainter_PDFPainter E) (getSelection E setup) pdfSettings defaultImgScale
                   (pageItem page) pdfPrinter in
  mkPreviewPixmap (rwidth bbox) (rheight bbox) dotsPerMeter
    (if overlay pdfSettings then FillVeil else FillWhite)
    paintedBeforeFill (qp_canvas pdfPrinter).

(** [m_preview] is [None] when the pointer is null. *)
Definition updatePreview (pageCount : Z) (m_previewPage : HOCRPage)
    (m_preview : option PreviewItem) : option PreviewItem :=
  match m_preview with
  | None => None
  | Some item =>
      let item := mkPreviewItem checkBoxPreview (pv_pixmap item) (pv_pos item) in
      if (pageCount =? 0) || negb checkBoxPreview then Some item
      else
        let bbox := bbox (pageItem m_previewPage) in
        Some (mkPreviewItem (pv_visible item)
                (Some (renderPreview m_previewPage))
                (dmul (PrimFloat.opp (ddiv (of_int 1) (of_int 2))) (of_int (rwidth bbox)),
                 dmul (PrimFloat.opp (ddiv (of_int 1) (of_int 2))) (of_int (rheight bbox))))
  end.
End Preview.

(** ** The handlers of the format and compression boxes (lines 510-542) *)

(** The widgets the two handlers read and write.  The data of the current
    item of a combo box is [None] when the box has no current item (index
    -1); the data then reads as 0, which is [QImage::Format_Invalid] for the
    format and is taken to be a compression other than [CompressJpeg]. *)
Record DialogWidgets := mkDialogWidgets {
  imageFormatData : option Format;
  imageCompressionData : option Compression;
  ccittSelectable : bool;
  jpegSelectable : bool;
  ditheringEnabled : bool;
  compressionQualityEnabled : bool }.

Definition isMono (f : option Format) : bool :=
  match f with Some Format_Mono => true | _ => false end.

Definition isJpeg (c : option Compression) : bool :=
  match c with Some CompressJpeg => true | _ => false end.

Definition isFax4 (c : option Compression) : bool :=
  match c with Some CompressFax4 => true | _ => false end.

(** Lines 537-542. *)
Definition imageCompressionChanged (w : DialogWidgets) : DialogWidgets :=
  let jpegCompression := isJpeg (imageCompressionData w) in
  mkDialogWidgets (imageFormatData w) (imageCompressionData w)
    (ccittSelectable w) (jpegSelectable w) (ditheringEnabled w) jpegCompression.

(** [ui.comboBoxImageCompression->setCurrentIndex(zipIdx)] when another item
    is current: the index changes and the signal runs
    [imageCompressionChanged] (connected at line 218). *)
Definition selectZip (w : DialogWidgets) : DialogWidgets :=
  imageCompressionChanged
    (mkDialogWidgets (imageFormatData w) (Some CompressZip)
       (ccittSelectable w) (jpegSelectable w) (ditheringEnabled w)
       (compressionQualityEnabled w)).

(** Lines 510-535. *)
Definition imageFormatChanged (w : DialogWidgets) : DialogWidgets :=
  if isMono (imageFormatData w)
  then
    let w1 := if isJpeg (imageCompressionData w) then selectZip w else w in
    mkDialogWidgets (imageFormatData w1) (imageCompressionData w1)
      true false true (compressionQualityEnabled w1)
  else
    let w1 := if isFax4 (imageCompressionData w) then selectZip w else w in
    mkDialogWidgets (imageFormatData w1) (imageCompressionData w1)
      false true false (compressionQualityEnabled w1).

(** ** Vocabulary of the properties *)

(** The texts of the [drawText] calls of a list of calls, in order. *)
Fixpoint drawnTexts (cs : list Call) : list string :=
  match cs with
  | [] => []
  | CallDrawText _ _ t :: rest => t :: drawnTexts rest
  | _ :: rest => drawnTexts rest
  end.

(** Issuing recorded calls against a renderer. *)
Definition issue {P : Type} `{PDFPainter P} (painter : P) (c : Call) : P :=
  match c with
  | CallSetFontSize pointSize => setFontSize pointSize painter
  | CallDrawText x y t => drawText x y t painter
  | CallDrawImage b image settings => drawImage b image settings painter
  end.

Definition replay {P : Type} `{PDFPainter P} (cs : list Call) (painter : P) : P :=
  fold_left issue cs painter.

(** The pages the page loop renders, and the pages it reports as failed. *)
Definition isRendered (E : External) (page : HOCRPage) : bool :=
  isEnabled (pageItem page) && addSource E (sourceFile page).

Definition isFailed (E : External) (page : HOCRPage) : bool :=
  isEnabled (pageItem page) && negb (addSource E (sourceFile page)).

(** The size in points of the output page of an hOCR page. *)
Definition pageSizeInPoints (page : HOCRPage) : double * double :=
  (dmul (of_int (rwidth (bbox (pageItem page)))) (docScale (resolution page)),
   dmul (of_int (rheight (bbox (pageItem page)))) (docScale (resolution page))).

(** The page of a file back end has a given size. *)
Definition hasPageSize (w h : double) (p : PoDoFoPDFPainter) : Prop :=
  pageWidth (m_page p) = w /\ pageHeight (m_page p) = h.

(** [ceil(n / 8)] for an integer [n]. *)
Definition ceilDiv8 (n : Z) : Z := (n + 7) / 8.

(** The bytes of a packed row as the specification writes them,
    [ceil(width*bitsPerSample*channels/8)], with the channels and bits per
    sample of the three sample formats: RGB24 3 and 8, Gray8 1 and 8,
    Mono1 1 and 1. *)
Definition channels (f : Format) : Z :=
  match f with Format_RGB888 => 3 | Format_ARGB32 => 4 | _ => 1 end.

Definition bitsPerSample (f : Format) : Z :=
  match f with Format_Mono => 1 | _ => 8 end.

Definition packedBytesPerRow (f : Format) (w : Z) : Z :=
  ceilDiv8 (w * bitsPerSample f * channels f).

(** The loop variable [y] of the line loop at the start of iteration [k],
    from its value at the start of the loop: [k] times [y += yInc]. *)
Fixpoint lineY (yInc : double) (k : nat) (y : double) : double :=
  match k with
  | O => y
  | S k' => lineY yInc k' (dadd y yInc)
  end.

(** The baseline of line [k] of a paragraph as the specification writes it:
    [top + (k+1)*(H_total/N) + baseline0]. *)
Definition closedFormBaselineY (top H_total N : Z) (k : nat) (baseline0 : Z) : double :=
  dadd (dadd (of_int top)
             (dmul (of_int (Z.of_nat k + 1)) (ddiv (of_int H_total) (of_int N))))
       (of_int baseline0).

(** Kinds of calls and of operators. *)
Definition isSetFontSizeCall (c : Call) : bool :=
  match c with CallSetFontSize _ => true | _ => false end.

Definition isDrawImageCall (c : Call) : bool :=
  match c with CallDrawImage _ _ _ => true | _ => false end.

Definition isTextOp (op : PdfOp) : bool :=
  match op with PdfDrawText _ _ _ => true | _ => false end.

Definition isCanvasText (op : CanvasOp) : bool :=
  match op with CanvasText _ _ _ _ => true | _ => false end.

(** The operators a call leaves on the page of a file back end of scale
    factor [s] and page height [H]. *)
Definition pdfOpsOfCall (E : External) (s H : double) (c : Call) : list PdfOp :=
  match c with
  | CallSetFontSize _ => []
  | CallDrawText x y t => [PdfDrawText (dmul x s) (dsub H (dmul y s)) (c_str t)]
  | CallDrawImage b image settings =>
      [PdfDrawImage (dmul (of_int (rx b)) s)
                    (dsub H (dmul (of_int (ry b + rheight b)) s))
                    (PoDoFo_pdfImage E (PoDoFo_samples E image settings) settings)
                    (ddiv (dmul s (of_int (rwidth b))) (of_int (width image)))
                    (ddiv (dmul s (of_int (rheight b))) (of_int (height image)))]
  end.

(** The page of an hOCR page as [run] renders it (lines 374-389), told by
    the calls made: the empty page of the size of the bounding box in
    points, the font of the dialog, the calls of the layout walk and, in
    overlay mode, the call that draws the region of the whole page. *)
Definition scaledPageBox (ui : Ui) (page : HOCRPage) : QRect :=
  let box := bbox (pageItem page) in
  let imgScale := ddiv (of_int (spinBoxDpi ui)) (of_int (resolution page)) in
  mkQRect (to_int (dmul imgScale (of_int (rleft box))))
          (to_int (dmul imgScale (of_int (rtop box))))
          (to_int (dmul imgScale (of_int (rwidth box))))
          (to_int (dmul imgScale (of_int (rheight box)))).

Definition pageSetup (ui : Ui) (page : HOCRPage) : DisplayerSetup :=
  mkDisplayerSetup (pageNr page) (spinBoxDpi ui) (angle page).

Definition pageImageCall (E : External) (ui : Ui) (pdfSettings : PDFSettings)
    (page : HOCRPage) : Call :=
  CallDrawImage (bbox (pageItem page))
                (getSelection E (pageSetup ui page) (scaledPageBox ui page))
                pdfSettings.

Definition walkCalls (E : External) (ui : Ui) (pdfSettings : PDFSettings)
    (page : HOCRPage) : list Call :=
  let box := bbox (pageItem page) in
  let s := docScale (resolution page) in
  let blank := mkPdfPage (dmul (of_int (rwidth box)) s) (dmul (of_int (rheight box)) s) [] in
  let pdfprinter :=
    PoDoFo_setFontSize (of_int (fontPointSize ui))
                       (PoDoFoPDFPainter_new blank (of_int 12) s) in
  calls (printChildren (H := Recorder_PDFPainter _ (H := PoDoFo_PDFPainter E))
           (getSelection E (pageSetup ui page)) pdfSettings
           (ddiv (of_int (spinBoxDpi ui)) (of_int (resolution page)))
           (pageItem page) (mkRecorder pdfprinter [])).

Definition renderedPage (E : External) (ui : Ui) (pdfSettings : PDFSettings)
    (page : HOCRPage) : PdfPage :=
  let box := bbox (pageItem page) in
  let s := docScale (resolution page) in
  let pageWidth := dmul (of_int (rwidth box)) s in
  let pageHeight := dmul (of_int (rheight box)) s in
  mkPdfPage pageWidth pageHeight
    (flat_map (pdfOpsOfCall E s pageHeight)
       (walkCalls E ui pdfSettings page ++
        if overlay pdfSettings then [pageImageCall E ui pdfSettings page] else [])).

(** The calls a word of a line drawn at its own place gives rise to. *)
Definition literalWordCalls (pdfSettings : PDFSettings) (y : double) (wordItem : HOCRItem)
  : list Call :=
  (if useDetectedFontSizes pdfSettings
   then [CallSetFontSize (dmul (fontSize wordItem) (detectedFontScaling pdfSettings))]
   else []) ++
  [CallDrawText (of_int (rx (bbox wordItem))) y (text wordItem)].

(** The walk handles an item of this class by visiting its children. *)
Definition visitsChildren (pdfSettings : PDFSettings) (cls : string) : bool :=
  negb ((cls =? "ocr_par")%string && uniformizeLineSpacing pdfSettings)
  && negb ((cls =? "ocr_line")%string && negb (uniformizeLineSpacing pdfSettings))
  && negb ((cls =? "ocr_graphic")%string && negb (overlay pdfSettings)).

(** The cached font size of the preview back end agrees with the font of
    its painter whenever it is a valid point size. *)
Definition cacheCoherent (p : QPainterPDFPainter) : Prop :=
  0 < m_curFontSize p -> qp_fontPointSize p = m_curFontSize p.

(** A round of the dialog loop that ends in a retry: the dialog was
    accepted and a name chosen, and the document or its font could not be
    created. *)
Definition isRetry (r : DialogResponse) : bool :=
  execAccepted r && negb (chosenName r =? "")%string
  && negb (documentCreated r && fontCreated r).

(** A round that leaves the loop with a document. *)
Definition isSuccess (r : DialogResponse) : bool :=
  execAccepted r && negb (chosenName r =? "")%string
  && documentCreated r && fontCreated r.

(** The message boxes among the events, and the documents that were opened
    and not closed. *)
Fixpoint criticals (events : list DialogEvent) : list (string * string) :=
  match events with
  | [] => []
  | CriticalShown t m :: rest => (t, m) :: criticals rest
  | _ :: rest => criticals rest
  end.

Fixpoint openDocuments (events : list DialogEvent) (open : list string) : list string :=
  match events with
  | [] => open
  | DocumentOpened n :: rest => openDocuments rest (open ++ [n])
  | DocumentClosed n :: rest =>
      openDocuments rest (filter (fun m => negb (m =? n)%string) open)
  | _ :: rest => openDocuments rest open
  end.

(** The message box of a retry. *)
Definition retryMessage (r : DialogResponse) : string * string :=
  if documentCreated r
  then ("Error", "The PDF library does not support the selected font.")%string
  else ("Failed to save output",
        "Check that you have writing permissions in the selected folder.")%string.

(** The format and the compression of the dialog go together: CCITT Group 4
    only with monochrome, JPEG never with monochrome. *)
Definition compressionFitsFormat (w : DialogWidgets) : Prop :=
  (isFax4 (imageCompressionData w) = true -> isMono (imageFormatData w) = true)
  /\ (isJpeg (imageCompressionData w) = true -> isMono (imageFormatData w) = false).

(** Two cursors of the word loop, over two renderers, agree up to a
    relation between the renderers. *)
Definition relatedCursors {P Q : Type} (R : P -> Q -> Prop)
    (st : WordCursor P) (st' : WordCursor Q) : Prop :=
  cur_x st = cur_x st' /\ cur_prevWordRight st = cur_prevWordRight st'
  /\ R (cur_painter st) (cur_painter st').

(** ** Sample data *)

(** An image of a given format and size with every byte zero. *)
Definition blankImage (f : Format) (w h : Z) : QImage :=
  let stride := alignedBytesPerLine f w in
  mkQImage f w h stride (repeat (repeat 0 (Z.to_nat stride)) (Z.to_nat h)).

(** External operations for the samples: a converter that keeps only the
    geometry, codecs that produce nothing, a font whose characters are half
    the font size wide, a container that closes without error, and a source
    manager that knows every file but [missing.png]. *)
Definition sampleExternal : External :=
  mkExternal
    (fun image f _ => blankImage f (width image) (height image))
    (fun _ _ => [])
    (fun _ => blankImage Format_RGB888 0 0)
    (fun pt => pt / 2)
    (fun pt t => pt / 2 * Z.of_nat (String.length t))
    (fun pt _ => ddiv pt (of_int 2))
    (fun pt t => dmul (ddiv pt (of_int 2)) (of_int (Z.of_nat (String.length t))))
    (fun _ => None)
    (fun _ _ _ _ => [])
    (fun _ r => blankImage Format_ARGB32 (rwidth r) (rheight r))
    (fun f => negb (f =? "missing.png")%string).

(** The same, with a container that fails to close. *)
Definition failingExternal : External :=
  mkExternal
    (convertToFormat sampleExternal) (jpegSave sampleExternal) (jpegLoad sampleExternal)
    (qtAverageCharWidth sampleExternal) (qtTextWidth sampleExternal)
    (pdfCharWidth sampleExternal) (pdfStringWidth sampleExternal)
    (fun _ => Some "disk full"%string)
    (ccittEncode sampleExternal) (getSelection sampleExternal) (addSource sampleExternal).

Definition sampleSettings (uniform : bool) : PDFSettings :=
  mkPDFSettings Format_RGB888 AutoColor CompressZip 90 false uniform 4 false (of_int 1).

Definition monoSettings (c : Compression) : PDFSettings :=
  mkPDFSettings Format_Mono ThresholdDither c 90 false false 4 false (of_int 1).

Definition sampleUi : Ui :=
  mkUi Format_RGB888 AutoColor CompressZip 90 false false 4 0 100 300 12 false.

Definition word (enabled : bool) (t : string) (x y w h : Z) : HOCRItem :=
  mkHOCRItem enabled "ocrx_word" (mkQRect x y w h) 0 (of_int 12) t [].

Definition line (enabled : bool) (x y w h baseline : Z) (words : list HOCRItem) : HOCRItem :=
  mkHOCRItem enabled "ocr_line" (mkQRect x y w h) baseline (of_int 0) "" words.

Definition paragraph (enabled : bool) (x y w h : Z) (lines : list HOCRItem) : HOCRItem :=
  mkHOCRItem enabled "ocr_par" (mkQRect x y w h) 0 (of_int 0) "" lines.

Definition pageOf (t file : string) (w h dpi : Z) (items : list HOCRItem) : HOCRPage :=
  mkHOCRPage (mkHOCRItem true "ocr_page" (mkQRect 0 0 w h) 0 (of_int 0) "" items)
             dpi file 1 (of_int 0) t.

(** A file back end on an empty US-letter page, wrapped in a recorder. *)
Definition samplePainter : Recorder PoDoFoPDFPainter :=
  mkRecorder
    (PoDoFoPDFPainter_new (mkPdfPage (of_int 612) (of_int 792) []) (of_int 12) (docScale 300))
    [].

(** The calls the walk issues against the sample painter. *)
Definition sampleCalls (pdfSettings : PDFSettings) (item : HOCRItem) : list Call :=
  calls (printChildren (H := Recorder_PDFPainter _ (H := PoDoFo_PDFPainter sampleExternal))
           (getSelection sampleExternal (mkDisplayerSetup 1 300 (of_int 0)))
           pdfSettings (of_int 1) item samplePainter).

(** The page of the end-to-end scenario: 2550 x 3300 pixels at 300 DPI, one
    paragraph, one line, the words Hello at x = 100 and World at x = 400. *)
Definition helloWorld (worldEnabled : bool) : HOCRItem :=
  paragraph true 100 200 700 60
    [line true 100 200 700 60 (-12)
       [word true "Hello" 100 200 250 60; word worldEnabled "World" 400 200 250 60]].

Definition helloWorldPage (t file : string) : HOCRPage :=
  pageOf t file 2550 3300 300 [helloWorld true].

(** Two words on one line under uniform spacing; the first ends at x = 200,
    the second starts at [x2].  With the sample font the average character
    is 25 pixels wide, so the gap threshold is 100 pixels. *)
Definition twoWords (x2 : Z) : HOCRItem :=
  paragraph true 100 200 700 60
    [line true 100 200 700 60 (-12)
       [word true "Hello" 100 200 101 60; word true "World" x2 200 250 60]].

(** A bitonal image of 10 x 2 pixels. *)
Definition sampleMono : QImage :=
  mkQImage Format_Mono 10 2 4 [[1; 2; 3; 4]; [5; 6; 7; 8]].

(** A paragraph of three lines of one word each, 100 pixels high, its top at
    y = 100. *)
Definition threeLines (secondEnabled : bool) : HOCRItem :=
  paragraph true 50 100 600 100
    [line true 50 100 600 33 (-5) [word true "one" 50 100 90 33];
     line secondEnabled 50 133 600 33 (-4) [word true "two" 50 133 90 33];
     line true 50 166 600 34 (-6) [word true "three" 50 166 150 34]].

(** Settings for overlay mode, and the widgets of such a dialog. *)
Definition overlaySettings : PDFSettings :=
  mkPDFSettings Format_RGB888 AutoColor CompressZip 90 false false 4 true (of_int 1).

Definition overlayUi : Ui :=
  mkUi Format_RGB888 AutoColor CompressZip 90 false false 4 1 100 300 12 false.

(** A column with a picture and the paragraph of the end-to-end scenario. *)
Definition picture : HOCRItem :=
  mkHOCRItem true "ocr_graphic" (mkQRect 100 400 30 20) 0 (of_int 0) "" [].

Definition column (items : list HOCRItem) : HOCRItem :=
  mkHOCRItem true "ocr_carea" (mkQRect 100 200 700 400) 0 (of_int 0) "" items.

Definition illustratedPage : HOCRPage :=
  pageOf "Page 1" "a.png" 2550 3300 300 [column [picture; helloWorld true]].

(** A page of 24 x 12 pixels with one word. *)
Definition thumbnailPage : HOCRPage :=
  pageOf "Thumbnail" "t.png" 24 12 300
    [paragraph true 0 0 24 12 [line true 0 0 24 12 (-2) [word true "Hi" 2 0 20 12]]].

(** A paragraph of one word, enabled or not. *)
Definition footnote (enabled : bool) : HOCRItem :=
  paragraph enabled 100 500 700 60
    [line true 100 500 700 60 (-12) [word true "Note" 100 500 200 60]].

(** A line whose second word is disabled. *)
Definition mixedLine : HOCRItem :=
  line true 100 200 700 60 (-12)
    [word true "Hello" 100 200 250 60; word false "World" 400 200 250 60].

(** Rounds of the dialog loop: the folder cannot be written, the font is not
    supported, the user gives up, all is well. *)
Definition unwritableRound : DialogResponse := mkDialogResponse true "/root/a.pdf" false false.
Definition fontlessRound : DialogResponse := mkDialogResponse true "/tmp/b.pdf" true false.
Definition rejectedRound : DialogResponse := mkDialogResponse false "" false false.
Definition readyRound : DialogResponse := mkDialogResponse true "/tmp/c.pdf" true true.

(** The part of a path after its last slash, for the samples. *)
Fixpoint afterLastSlash (path acc : string) : string :=
  match path with
  | EmptyString => acc
  | String c rest =>
      if Ascii.eqb c "/" then afterLastSlash rest EmptyString
      else afterLastSlash rest (acc ++ String c EmptyString)
  end.

Definition sampleBaseName (path : string) : string := afterLastSlash path EmptyString.

(** A dialog with JPEG selected for a colour image, quality enabled. *)
Definition jpegWidgets (f : Format) : DialogWidgets :=
  mkDialogWidgets (Some f) (Some CompressJpeg) false true false true.

(** * Properties *)

(** ** Doubles *)



(** Dividing by zero gives an infinity or a NaN, whatever the dividend. *)
Lemma ddiv_zero_not_finite (a : double) : is_finite (ddiv a (of_int 0)) = false.
Proof.
  unfold is_finite, ddiv. rewrite FloatAxioms.div_spec.
  change (Prim2SF (of_int 0)) with (S754_zero false).
  destruct (Prim2SF a) as [s|s| |s m e]; reflexivity.
Qed.

(** ** Images and packed rows *)

Lemma ceilDiv8_least (n : Z) : n <= 8 * ceilDiv8 n /\ 8 * (ceilDiv8 n - 1) < n.
Proof. unfold ceilDiv8. Z.to_euclidean_division_equations. lia. Qed.

Lemma zipBytesPerLine_ceiling (settings : PDFSettings) (w : Z) :
  0 <= w ->
  zipBytesPerLine settings w = 
    match colorFormat settings with
    | Format_RGB888 => ceilDiv8 (w * 8 * 3)
    | Format_Mono => ceilDiv8 (w * 1 * 1)
    | _ => ceilDiv8 (w * 8 * 1)
    end.
Proof.
  intros Hw. unfold zipBytesPerLine, numComponents, sampleSize, ceilDiv8.
  destruct (colorFormat settings); simpl Format_eqb; cbv iota;
    match goal with |- context [Z.rem ?a 8 =? 0] => destruct (Z.eqb_spec (Z.rem a 8) 0) as [Hr|Hr] end;
    revert Hr; rewrite Z.quot_div_nonneg, Z.rem_mod_nonneg by lia; intros Hr;
    Z.to_euclidean_division_equations; lia.
Qed.

Section Rows.
Local Open Scope nat_scope.

Lemma skipn_concat_rows (n : nat) (k : nat) : forall rows : list (list Z),
  Forall (fun r => length r = n) rows -> skipn (k * n) (concat rows) = concat (skipn k rows).
Proof.
  induction k as [|k IH]; intros rows Hrows; [reflexivity|].
  destruct rows as [|r rows]; simpl; [apply skipn_nil|].
  inversion Hrows as [|? ? Hr Hrest]; subst.
  rewrite skipn_app, (skipn_all2 r) by lia.
  replace (length r + k * length r - length r) with (k * length r) by lia.
  simpl. now apply IH.
Qed.

Lemma packed_length (b n : nat) (rows : list (list Z)) :
  b <= n -> Forall (fun r => length r = n) rows ->
  length (concat (map (firstn b) rows)) = length rows * b.
Proof.
  intros Hb. induction 1 as [|r rows Hr _ IH]; simpl; [reflexivity|].
  rewrite length_app, IH, length_firstn. lia.
Qed.

Lemma firstn_snoc_nth {A} (d : A) (k : nat) (l : list A) :
  k < length l -> firstn (S k) l = firstn k l ++ [nth k l d].
Proof.
  revert l. induction k as [|k IH]; intros [|a l] Hk; simpl in *; try lia; [reflexivity|].
  f_equal. apply IH. lia.
Qed.

Lemma skipn_cons_nth {A} (d : A) (k : nat) (l : list A) :
  k < length l -> skipn k l = nth k l d :: skipn (S k) l.
Proof.
  revert l. induction k as [|k IH]; intros [|a l] Hk; simpl in *; try lia; [reflexivity|].
  apply IH. lia.
Qed.

Lemma Forall_firstn_rows {A} (Q : A -> Prop) (k : nat) (l : list A) :
  Forall Q l -> Forall Q (firstn k l).
Proof.
  intros Hl. revert k. induction Hl as [|a l Ha _ IH]; intros [|k]; simpl; auto.
Qed.

Lemma skipn_repeat_zero {A} (a : A) (k n : nat) : skipn k (repeat a n) = repeat a (n - k).
Proof.
  revert k. induction n as [|n IH]; intros [|k]; simpl; auto.
Qed.

Lemma zipBuffer_loop (img : QImage) (b n : nat) (bpl : Z) :
  bpl = Z.of_nat b -> bytesPerLine img = Z.of_nat n -> b <= n ->
  Forall (fun r => length r = n) (scanLines img) ->
  forall k, k <= length (scanLines img) ->
  fold_left
      (fun buf y =>
         memcpy buf (Z.to_nat (Z.of_nat y * bpl))
                (scanLine img (Z.of_nat y)) (Z.to_nat bpl))
      (seq 0 k)
      (repeat 0%Z (b * length (scanLines img))) =
  concat (map (firstn b) (firstn k (scanLines img))) ++ repeat 0%Z (b * (length (scanLines img) - k)).
Proof.
  intros Hbpl Hstride Hb Hrows. induction k as [|k IH]; intros Hk.
  - simpl. now rewrite Nat.sub_0_r.
  - rewrite seq_S, fold_left_app, IH by lia. cbn [fold_left Nat.add].
    set (rows := scanLines img) in *.
    assert (HA : length (concat (map (firstn b) (firstn k rows))) = k * b).
    { rewrite (packed_length b n); [now rewrite length_firstn, Nat.min_l by lia|assumption|].
      now apply Forall_firstn_rows. }
    assert (Hlen : length (nth k rows []) = n).
    { rewrite Forall_forall in Hrows. apply Hrows, nth_In. lia. }
    rewrite (firstn_snoc_nth [] k rows) by lia.
    rewrite map_app, concat_app. cbn [map concat]. rewrite app_nil_r, <- app_assoc.
    unfold memcpy.
    replace (Z.to_nat (Z.of_nat k * bpl)) with (k * b) by (subst bpl; lia).
    replace (Z.to_nat bpl) with b by (subst bpl; lia).
    rewrite firstn_app, HA, Nat.sub_diag, firstn_all2 by lia.
    cbn [firstn]. rewrite app_nil_r.
    rewrite skipn_app, HA, skipn_all2 by lia. cbn [app].
    replace (k * b + b - k * b) with b by lia.
    rewrite skipn_repeat_zero.
    replace (b * (length rows - k) - b) with (b * (length rows - S k)) by nia.
    unfold scanLine, constBits. fold rows.
    replace (Z.to_nat (Z.of_nat k * bytesPerLine img)) with (k * n) by (rewrite Hstride; lia).
    rewrite skipn_concat_rows by assumption.
    rewrite (skipn_cons_nth [] k rows) by lia. cbn [concat].
    rewrite firstn_app, Hlen. replace (b - n) with 0 by lia. cbn [firstn].
    now rewrite app_nil_r.
Qed.
End Rows.

Lemma testbit_255 (j : Z) : 0 <= j < 8 -> Z.testbit 255 j = true.
Proof.
  intros Hj.
  assert (Hcases : j = 0 \/ j = 1 \/ j = 2 \/ j = 3 \/ j = 4 \/ j = 5 \/ j = 6 \/ j = 7) by lia.
  repeat (destruct Hcases as [->|Hcases]; [reflexivity|]). now subst.
Qed.

Lemma invertRow_nil (used : nat) : invertRow used [] = [].
Proof. unfold invertRow. now rewrite firstn_nil, skipn_nil. Qed.

Lemma nth_invertRow (used i : nat) (row : list Z) :
  (i < used)%nat -> (used <= length row)%nat ->
  nth i (invertRow used row) 0 = Z.lxor (nth i row 0) 255.
Proof.
  intros Hi Hused. unfold invertRow.
  rewrite app_nth1 by (rewrite length_map, length_firstn; lia).
  change 0 with (Z.lxor 255 255) at 1.
  rewrite (map_nth (fun b => Z.lxor b 255)).
  f_equal. rewrite nth_firstn.
  destruct (Nat.ltb_spec i used); [apply nth_indep|]; lia.
Qed.

Lemma monoPixel_invertPixels (img : QImage) (x y : Z) :
  validImage img -> format img = Format_Mono ->
  0 <= x < width img -> 0 <= y < height img ->
  monoPixel (invertPixels img) x y = negb (monoPixel img x y).
Proof.
  intros (Hw & Hh & Hstride & Hrows & Hlen) Hfmt Hx Hy.
  unfold monoPixel, invertPixels. rewrite Hfmt.
  change (depth Format_Mono <? 32) with true. cbn [scanLines].
  rewrite <- (invertRow_nil (Z.to_nat (usedBytesPerLine img))) at 1.
  rewrite map_nth.
  assert (Hrow : Z.of_nat (length (nth (Z.to_nat y) (scanLines img) [])) = bytesPerLine img).
  { rewrite Forall_forall in Hlen. apply Hlen, nth_In. lia. }
  unfold usedBytesPerLine in *. rewrite Hfmt in *. unfold alignedBytesPerLine in Hstride.
  simpl depth in *.
  rewrite nth_invertRow.
  - rewrite Z.lxor_spec, testbit_255, xorb_true_r; [reflexivity|].
    pose proof (Z.mod_pos_bound x 8). lia.
  - apply Z2Nat.inj_lt.
    + Z.to_euclidean_division_equations; lia.
    + Z.to_euclidean_division_equations; lia.
    + Z.to_euclidean_division_equations; lia.
  - apply Nat2Z.inj_le. rewrite Hrow, Hstride, Z2Nat.id;
      Z.to_euclidean_division_equations; lia.
Qed.

Lemma blankImage_valid (f : Format) (w h : Z) :
  0 <= w -> 0 <= h -> validImage (blankImage f w h).
Proof.
  intros Hw Hh.
  assert (Hs : 0 <= alignedBytesPerLine f w).
  { unfold alignedBytesPerLine. destruct f; simpl depth; Z.to_euclidean_division_equations; lia. }
  unfold validImage, blankImage. cbn [width height bytesPerLine format scanLines].
  repeat split; try assumption.
  - rewrite repeat_length. lia.
  - apply Forall_forall. intros row Hrow. apply repeat_spec in Hrow. subst row.
    rewrite repeat_length. lia.
Qed.

Lemma sampleExternal_converts : convertsFaithfully sampleExternal.
Proof.
  intros image targetFormat flags Hw Hh. simpl.
  split; [now apply blankImage_valid|]. repeat split.
Qed.

(** ** The layout walk *)

Section LayoutFacts.
Context {P : Type} `{PDFPainter P}.
Variable getSelection : QRect -> QImage.
Variable pdfSettings : PDFSettings.
Variable imgScale : double.

(** The guard of line 414: the walk leaves the renderer alone when it is
    called on a disabled item. *)
Lemma printChildren_disabled (item : HOCRItem) (painter : P) :
  isEnabled item = false -> printChildren getSelection pdfSettings imgScale item painter = painter.
Proof.
  intros Hdis. destruct item; simpl in *. rewrite Hdis. reflexivity.
Qed.

Lemma printChildren_uniform_paragraph (item : HOCRItem) (painter : P) :
  isEnabled item = true -> itemClass item = "ocr_par"%string ->
  uniformizeLineSpacing pdfSettings = true ->
  printChildren getSelection pdfSettings imgScale item painter = printUniformParagraph pdfSettings item painter.
Proof.
  intros Hen Hcls Huni. destruct item; simpl in *.
  rewrite Hen, Hcls, Huni. reflexivity.
Qed.

(** The previous right edge is the right edge of the last word drawn. *)
Lemma uniformWord_enabled_prevWordRight
    (y : double) (baseline : Z) (st : WordCursor P) (wordItem : HOCRItem) :
  isEnabled wordItem = true ->
  cur_prevWordRight (uniformWord pdfSettings y baseline st wordItem) = rright (bbox wordItem).
Proof.
  intros Hen. unfold uniformWord. now rewrite Hen.
Qed.

(** Whatever the three drawing methods of a renderer preserve, the walk
    preserves. *)
Section Invariant.
Variable Inv : P -> Prop.
Hypothesis Inv_setFontSize : forall pt p, Inv p -> Inv (setFontSize pt p).
Hypothesis Inv_drawText : forall x y t p, Inv p -> Inv (drawText x y t p).
Hypothesis Inv_drawImage : forall b i s p, Inv p -> Inv (drawImage b i s p).

Lemma applyWordFont_preserves (wordItem : HOCRItem) (p : P) :
  Inv p -> Inv (applyWordFont pdfSettings wordItem p).
Proof.
  unfold applyWordFont. destruct (useDetectedFontSizes pdfSettings); auto.
Qed.

Lemma uniformWords_preserve (y : double) (baseline : Z) (words : list HOCRItem) :
  forall st : WordCursor P,
    Inv (cur_painter st) ->
    Inv (cur_painter (fold_left (uniformWord pdfSettings y baseline) words st)).
Proof.
  induction words as [|w words IH]; intros st Hst; simpl; [assumption|].
  apply IH. unfold uniformWord. destruct (isEnabled w); simpl; [|assumption].
  apply Inv_drawText. now apply applyWordFont_preserves.
Qed.

Lemma uniformLines_preserve (itemRect : QRect) (yInc : double) (baseline : Z)
    (lines : list HOCRItem) :
  forall (y : double) (p : P),
    Inv p ->
    Inv (snd (fold_left (uniformLine pdfSettings itemRect yInc baseline) lines (y, p))).
Proof.
  induction lines as [|l lines IH]; intros y p Hp; simpl; [assumption|].
  apply IH. now apply uniformWords_preserve.
Qed.

Lemma printLine_preserves (item : HOCRItem) (p : P) :
  Inv p -> Inv (printLine pdfSettings item p).
Proof.
  unfold printLine. generalize (of_int (rbottom (bbox item) + baseLine item)). intros y.
  revert p. induction (children item) as [|w words IH]; intros p Hp; simpl; [assumption|].
  apply IH. unfold literalWord. apply Inv_drawText. now apply applyWordFont_preserves.
Qed.

Lemma printChildren_preserves (item : HOCRItem) :
  forall p, Inv p -> Inv (printChildren getSelection pdfSettings imgScale item p).
Proof.
  induction item as [item IH] using HOCRItem_rect_children.
  intros p Hp. destruct item as [en cls b bl fs t cs]. simpl in *.
  destruct en; simpl; [|assumption].
  destruct ((cls =? "ocr_par")%string && uniformizeLineSpacing pdfSettings).
  { unfold printUniformParagraph. now apply uniformLines_preserve. }
  destruct ((cls =? "ocr_line")%string && negb (uniformizeLineSpacing pdfSettings)).
  { now apply printLine_preserves. }
  destruct ((cls =? "ocr_graphic")%string && negb (overlay pdfSettings)).
  { unfold printGraphic. now apply Inv_drawImage. }
  revert p Hp. induction IH as [|c rest Hc _ IHrest]; intros p Hp; [assumption|].
  apply IHrest. now apply Hc.
Qed.
End Invariant.
End LayoutFacts.

(** ** The calls of the layout walk *)

Section RecordedWalk.
Context {P : Type} `{PDFPainter P}.
Variable getSelection : QRect -> QImage.
Variable pdfSettings : PDFSettings.
Variable imgScale : double.

(** A recorder adds a call for the font size of a word only. *)
Lemma applyWordFont_calls (wordItem : HOCRItem) (r : Recorder P) :
  calls (applyWordFont pdfSettings wordItem r) =
  calls r ++
  (if useDetectedFontSizes pdfSettings
   then [CallSetFontSize (dmul (fontSize wordItem) (detectedFontScaling pdfSettings))]
   else []).
Proof.
  unfold applyWordFont. destruct (useDetectedFontSizes pdfSettings); simpl.
  - reflexivity.
  - now rewrite app_nil_r.
Qed.

Lemma drawnTexts_app (a b : list Call) : drawnTexts (a ++ b) = drawnTexts a ++ drawnTexts b.
Proof.
  induction a as [|c a IH]; simpl; [reflexivity|].
  destruct c; simpl; now rewrite IH.
Qed.

(** The calls of one iteration of the word loop on an enabled word. *)
Lemma uniformWord_enabled_calls
    (y : double) (baseline : Z) (st : WordCursor (Recorder P)) (wordItem : HOCRItem) :
  isEnabled wordItem = true ->
  let painter1 := applyWordFont pdfSettings wordItem (cur_painter st) in
  calls (cur_painter (uniformWord pdfSettings y baseline st wordItem)) =
    calls painter1 ++
    [CallDrawText
       (of_int (if keepsSpace pdfSettings (bbox wordItem) (cur_prevWordRight st) painter1
                then rx (bbox wordItem) else cur_x st))
       (dadd y (of_int baseline)) (text wordItem)].
Proof.
  intros Hen painter1. unfold uniformWord. rewrite Hen. simpl. reflexivity.
Qed.

(** The calls of the word loop of one line: one [drawText] per enabled word,
    in order, all at the y of the line. *)
Lemma uniformWords_calls (y : double) (baseline : Z) (words : list HOCRItem) :
  forall st : WordCursor (Recorder P),
  exists seg,
    calls (cur_painter (fold_left (uniformWord pdfSettings y baseline) words st)) =
      calls (cur_painter st) ++ seg
    /\ drawnTexts seg = map text (filter isEnabled words)
    /\ forall x y' t, In (CallDrawText x y' t) seg -> y' = dadd y (of_int baseline).
Proof.
  induction words as [|w words IH]; intros st; simpl.
  - exists []. rewrite app_nil_r. repeat split. intros x y' t [].
  - destruct (IH (uniformWord pdfSettings y baseline st w)) as (seg & Hcalls & Htexts & Hy).
    destruct (isEnabled w) eqn:Hen.
    + rewrite uniformWord_enabled_calls, applyWordFont_calls in Hcalls by assumption.
      eexists. split; [rewrite Hcalls, <- !app_assoc; reflexivity|]. split.
      * rewrite !drawnTexts_app, Htexts.
        destruct (useDetectedFontSizes pdfSettings); reflexivity.
      * intros x y' t Hin. rewrite !in_app_iff in Hin.
        destruct Hin as [Hin|[Hin|Hin]].
        -- destruct (useDetectedFontSizes pdfSettings); simpl in Hin;
             [destruct Hin as [Hin|[]]; discriminate | destruct Hin].
        -- destruct Hin as [Hin|[]]. now inversion Hin.
        -- eauto.
    + assert (Hskip : uniformWord pdfSettings y baseline st w = st).
      { unfold uniformWord. now rewrite Hen. }
      rewrite Hskip in Hcalls |- *. exists seg. auto.
Qed.

(** The calls of the line loop, line by line. *)
Lemma uniformLines_calls (itemRect : QRect) (yInc : double) (baseline : Z)
    (lines : list HOCRItem) :
  forall (y : double) (painter : Recorder P),
  exists segs,
    calls (snd (fold_left (uniformLine pdfSettings itemRect yInc baseline) lines (y, painter))) =
      calls painter ++ concat segs
    /\ length segs = length lines
    /\ forall k lineItem seg,
         nth_error lines k = Some lineItem -> nth_error segs k = Some seg ->
         drawnTexts seg = map text (filter isEnabled (children lineItem))
         /\ forall x y' t, In (CallDrawText x y' t) seg ->
              y' = dadd (lineY yInc k y) (of_int baseline).
Proof.
  induction lines as [|l lines IH]; intros y painter; simpl.
  - exists []. simpl. rewrite app_nil_r. repeat split; destruct k; discriminate.
  - destruct (uniformWords_calls y baseline (children l)
                (mkWordCursor (rx itemRect) (rx itemRect) painter))
      as (seg & Hseg & Htexts & Hy).
    simpl in Hseg.
    destruct (IH (dadd y yInc)
                 (cur_painter (fold_left (uniformWord pdfSettings y baseline) (children l)
                                 (mkWordCursor (rx itemRect) (rx itemRect) painter))))
      as (segs & Hsegs & Hlen & Hall).
    exists (seg :: segs). split; [|split].
    + rewrite Hsegs, Hseg. simpl. now rewrite app_assoc.
    + simpl. now rewrite Hlen.
    + intros [|k] lineItem seg' Hl Hs; simpl in *.
      * inversion Hl; inversion Hs; subst. auto.
      * eauto.
Qed.

(** C2, as the code has it: in a paragraph with uniform line spacing the
    calls come line by line; line [k] draws its enabled words, each at the y
    that results from [top + yInc] by [k] further additions of
    [yInc = height / N], plus the baseline of the first line. *)
Theorem uniform_paragraph_baselines
    (item : HOCRItem) (painter : Recorder P)
    (Hen : isEnabled item = true)
    (Hcls : itemClass item = "ocr_par"%string)
    (Huni : uniformizeLineSpacing pdfSettings = true) :
  let N := Z.of_nat (length (children item)) in
  let yInc := ddiv (of_int (rheight (bbox item))) (of_int N) in
  let baseline0 := match children item with c :: _ => baseLine c | [] => 0 end in
  exists segs,
    calls (printChildren getSelection pdfSettings imgScale item painter) =
      calls painter ++ concat segs
    /\ length segs = length (children item)
    /\ forall k lineItem seg,
         nth_error (children item) k = Some lineItem -> nth_error segs k = Some seg ->
         drawnTexts seg = map text (filter isEnabled (children lineItem))
         /\ forall x y t, In (CallDrawText x y t) seg ->
              y = dadd (lineY yInc k (dadd (of_int (rtop (bbox item))) yInc)) (of_int baseline0).
Proof.
  intros N yInc baseline0.
  rewrite printChildren_uniform_paragraph by assumption.
  unfold printUniformParagraph. fold N. fold yInc.
  replace (if N >? 0 then match children item with c :: _ => baseLine c | [] => 0 end else 0)
    with baseline0.
  - apply uniformLines_calls.
  - unfold baseline0, N. destruct (children item); reflexivity.
Qed.


(** C4: a disabled word leaves the cursor of the word loop as it is: the
    position, the previous right edge and the renderer with the calls it has
    received; the loop runs as if the word were not in the line. *)
Theorem uniformWord_disabled_is_skipped
    (y : double) (baseline : Z) (st : WordCursor (Recorder P)) (wordItem : HOCRItem)
    (Hdis : isEnabled wordItem = false) :
  uniformWord pdfSettings y baseline st wordItem = st
  /\ calls (cur_painter (uniformWord pdfSettings y baseline st wordItem)) = calls (cur_painter st)
  /\ cur_x (uniformWord pdfSettings y baseline st wordItem) = cur_x st
  /\ cur_prevWordRight (uniformWord pdfSettings y baseline st wordItem) = cur_prevWordRight st
  /\ forall before after : list HOCRItem,
       fold_left (uniformWord pdfSettings y baseline) (before ++ wordItem :: after) st =
       fold_left (uniformWord pdfSettings y baseline) (before ++ after) st.
Proof.
  assert (Hskip : forall s : WordCursor (Recorder P),
             uniformWord pdfSettings y baseline s wordItem = s).
  { intros s. unfold uniformWord. now rewrite Hdis. }
  rewrite Hskip. repeat split.
  intros before after. rewrite !fold_left_app. simpl. now rewrite Hskip.
Qed.

End RecordedWalk.

(** ** The file back end *)

Section FileBackend.
Variable E : External.

(** The scale factor and the page height of a painter are those it was
    constructed with. *)
Lemma issue_keeps_geometry (c : Call) (p : PoDoFoPDFPainter) :
  m_scaleFactor (issue (H := PoDoFo_PDFPainter E) p c) = m_scaleFactor p
  /\ m_pageHeight (issue (H := PoDoFo_PDFPainter E) p c) = m_pageHeight p.
Proof. destruct c; split; reflexivity. Qed.

Lemma replay_keeps_geometry (history : list Call) :
  forall p : PoDoFoPDFPainter,
    m_scaleFactor (replay (H := PoDoFo_PDFPainter E) history p) = m_scaleFactor p
    /\ m_pageHeight (replay (H := PoDoFo_PDFPainter E) history p) = m_pageHeight p.
Proof.
  unfold replay. induction history as [|c history IH]; intros p; simpl; [now split|].
  destruct (IH (issue (H := PoDoFo_PDFPainter E) p c)) as [Hs Hh].
  destruct (issue_keeps_geometry c p) as [Hs' Hh'].
  split; congruence.
Qed.

(** C6: on a file back end constructed with scale factor [s] on a page of
    height [pageHeight page], and whatever calls it has served since,
    [drawText x y text] appends one text operator, at [(x*s, H - y*s)]. *)
Theorem PoDoFo_drawText_scales_and_flips
    (page : PdfPage) (fontSize s : double) (history : list Call)
    (x y : double) (t : string) :
  let painter :=
    replay (H := PoDoFo_PDFPainter E) history (PoDoFoPDFPainter_new page fontSize s) in
  pageContent (m_page (drawText (PDFPainter := PoDoFo_PDFPainter E) x y t painter)) =
  pageContent (m_page painter) ++
  [PdfDrawText (dmul x s) (dsub (pageHeight page) (dmul y s)) (c_str t)].
Proof.
  intros painter.
  destruct (replay_keeps_geometry history (PoDoFoPDFPainter_new page fontSize s))
    as [Hs Hh].
  fold painter in Hs, Hh. simpl in Hs, Hh.
  simpl. unfold PoDoFo_drawText. simpl. now rewrite Hs, Hh.
Qed.

(** A scan line of a valid image in one of the three sample formats is long
    enough for the packed row. *)
Lemma packed_row_fits (settings : PDFSettings) (img : QImage) :
  colorFormat settings <> Format_ARGB32 ->
  validImage img -> format img = colorFormat settings ->
  0 <= zipBytesPerLine settings (width img) <= bytesPerLine img.
Proof.
  intros Hfmt (Hw & _ & Hstride & _) Himg.
  rewrite zipBytesPerLine_ceiling, Hstride, Himg by assumption.
  unfold alignedBytesPerLine, ceilDiv8.
  destruct (colorFormat settings); try congruence; simpl depth;
    Z.to_euclidean_division_equations; lia.
Qed.

Lemma invertRow_length (used : nat) (row : list Z) : length (invertRow used row) = length row.
Proof.
  unfold invertRow. rewrite length_app, length_map, <- length_app.
  now rewrite firstn_skipn.
Qed.

Lemma invertPixels_valid (img : QImage) :
  validImage img -> format img <> Format_ARGB32 -> validImage (invertPixels img).
Proof.
  intros (Hw & Hh & Hstride & Hrows & Hlen) Hfmt.
  unfold validImage, invertPixels. cbn [width height bytesPerLine format scanLines].
  assert (Hdepth : (depth (format img) <? 32) = true)
    by (destruct (format img); try congruence; reflexivity).
  rewrite Hdepth, length_map. repeat split; try assumption.
  apply Forall_forall. intros row Hin. apply in_map_iff in Hin.
  destruct Hin as (r & <- & Hr). rewrite invertRow_length.
  rewrite Forall_forall in Hlen. now apply Hlen.
Qed.

(** The image the Zip path packs (lines 128-131) is a valid image of the
    colour format of the settings and of the size of the source image. *)
Lemma PoDoFo_samples_valid (image : QImage) (settings : PDFSettings) :
  convertsFaithfully E -> 0 <= width image -> 0 <= height image ->
  colorFormat settings <> Format_ARGB32 ->
  validImage (PoDoFo_samples E image settings)
  /\ format (PoDoFo_samples E image settings) = colorFormat settings
  /\ width (PoDoFo_samples E image settings) = width image.
Proof.
  intros Hconv Hw Hh Hfmt.
  destruct (Hconv image (colorFormat settings) (conversionFlags settings) Hw Hh)
    as (Hvalid & Hformat & Hwidth & _).
  unfold PoDoFo_samples, convertedImage.
  destruct (Format_eqb (colorFormat settings) Format_Mono).
  - split; [apply invertPixels_valid; congruence|]. split; assumption.
  - split; [assumption|]. split; assumption.
Qed.

(** C9: on the Zip path the bytes per packed row are
    [ceil(width*bitsPerSample*channels/8)] for each of the three sample
    formats and every width [w >= 0]; the buffer is the rows one after the
    other, each the first bytes of its scan line, with nothing in between. *)
Theorem zip_rows_are_tightly_packed
    (settings : PDFSettings) (w : Z)
    (Hw : 0 <= w)
    (Hfmt : colorFormat settings <> Format_ARGB32) :
  let rowBytes := zipBytesPerLine settings w in
  rowBytes = packedBytesPerRow (colorFormat settings) w
  /\ w * bitsPerSample (colorFormat settings) * channels (colorFormat settings)
       <= 8 * rowBytes
  /\ 8 * (rowBytes - 1)
       < w * bitsPerSample (colorFormat settings) * channels (colorFormat settings)
  /\ forall img : QImage,
       validImage img -> format img = colorFormat settings -> width img = w ->
       let rows := map (firstn (Z.to_nat rowBytes)) (scanLines img) in
       zipBuffer img rowBytes (height img) = concat rows
       /\ Forall (fun row => Z.of_nat (length row) = rowBytes) rows
       /\ Z.of_nat (length (zipBuffer img rowBytes (height img)))
          = rowBytes * height img.
Proof.
  intros rowBytes.
  assert (Hceil : rowBytes = packedBytesPerRow (colorFormat settings) w).
  { unfold rowBytes. rewrite zipBytesPerLine_ceiling by assumption.
    unfold packedBytesPerRow. destruct (colorFormat settings); try congruence; reflexivity. }
  split; [assumption|].
  destruct (ceilDiv8_least
              (w * bitsPerSample (colorFormat settings) * channels (colorFormat settings)))
    as [Hle Hlt].
  fold (packedBytesPerRow (colorFormat settings) w) in Hle, Hlt. rewrite <- Hceil in Hle, Hlt.
  split; [assumption|]. split; [assumption|].
  intros img Hvalid Himg Hwidth rows.
  destruct (packed_row_fits settings img Hfmt Hvalid Himg) as [Hb0 Hbn].
  rewrite Hwidth in Hb0, Hbn. fold rowBytes in Hb0, Hbn.
  destruct Hvalid as (_ & Hh & Hstride & Hrows & Hlen).
  assert (Hnat : Forall (fun r => length r = Z.to_nat (bytesPerLine img))
                        (scanLines img)).
  { revert Hlen. apply Forall_impl. intros r Hr. lia. }
  assert (Hbuf : zipBuffer img rowBytes (height img) = concat rows).
  { unfold zipBuffer.
    replace (Z.to_nat (rowBytes * height img))
      with (Z.to_nat rowBytes * length (scanLines img))%nat by nia.
    replace (Z.to_nat (height img)) with (length (scanLines img)) by lia.
    rewrite (zipBuffer_loop img (Z.to_nat rowBytes)
               (Z.to_nat (bytesPerLine img)) rowBytes); try lia; try assumption.
    rewrite firstn_all, Nat.sub_diag, Nat.mul_0_r. simpl. now rewrite app_nil_r. }
  assert (Hrowlen : Forall (fun row => Z.of_nat (length row) = rowBytes) rows).
  { unfold rows. apply Forall_forall. intros row Hin. apply in_map_iff in Hin.
    destruct Hin as (r & <- & Hr). rewrite Forall_forall in Hnat.
    rewrite length_firstn, (Hnat r Hr). lia. }
  split; [assumption|]. split; [assumption|].
  rewrite Hbuf. unfold rows.
  rewrite (packed_length (Z.to_nat rowBytes) (Z.to_nat (bytesPerLine img)));
    try assumption; nia.
Qed.

(** C10: with the Mono colour format the file back end inverts the converted
    image before any of the three encoders sees it, the preview back end
    paints the converted image as it is, and inverting complements every
    pixel sample. *)
Theorem Mono_is_inverted_on_the_file_backend_only
    (image : QImage) (settings : PDFSettings) (bbox : QRect)
    (p : PoDoFoPDFPainter) (q : QPainterPDFPainter)
    (Hconv : convertsFaithfully E)
    (Hwidth : 0 <= width image) (Hheight : 0 <= height image)
    (Hmono : colorFormat settings = Format_Mono) :
  let img := convertedImage E image Format_Mono (conversionFlags settings) in
  let inverted := invertPixels img in
  PoDoFo_samples E image settings = inverted
  /\ (exists x y sx sy,
        pageContent (m_page (PoDoFo_drawImage E bbox image settings p)) =
        pageContent (m_page p) ++ [PdfDrawImage x y (PoDoFo_pdfImage E inverted settings) sx sy])
  /\ img_data (PoDoFo_pdfImage E inverted settings) =
       match compression settings with
       | CompressZip =>
           let rowBytes := zipBytesPerLine settings (width inverted) in
           firstn (Z.to_nat (rowBytes * height inverted))
                  (zipBuffer inverted rowBytes (height inverted))
       | CompressJpeg => jpegSave E inverted (compressionQuality settings)
       | CompressFax4 =>
           ccittEncode E (constBits inverted) (width inverted) (height inverted)
                       (bytesPerLine inverted)
       end
  /\ qp_canvas (QPainter_drawImage E bbox image settings q) =
       qp_canvas q ++
       [CanvasImage bbox
          match compression settings with
          | CompressJpeg => jpegLoad E (jpegSave E img (compressionQuality settings))
          | _ => img
          end]
  /\ forall x y, 0 <= x < width img -> 0 <= y < height img ->
       monoPixel inverted x y = negb (monoPixel img x y).
Proof.
  intros img inverted.
  assert (Hsamples : PoDoFo_samples E image settings = inverted).
  { unfold PoDoFo_samples. now rewrite Hmono. }
  split; [assumption|]. split; [|split; [|split]].
  - unfold PoDoFo_drawImage. rewrite Hsamples. simpl. eauto.
  - unfold PoDoFo_pdfImage. destruct (compression settings); reflexivity.
  - unfold QPainter_drawImage, QPainter_image. rewrite Hmono. fold img. simpl.
    destruct (compression settings); reflexivity.
  - intros x y Hx Hy.
    destruct (Hconv image Format_Mono (conversionFlags settings) Hwidth Hheight)
      as (Hvalid & Hfmt & _).
    now apply monoPixel_invertPixels.
Qed.
End FileBackend.

(** ** The export run *)

Section RunFacts.
Variable E : External.
Variable ui : Ui.

Lemma exportPage_size (pdfSettings : PDFSettings) (fontSize : double) (page : HOCRPage) :
  let pdfpage := fst (exportPage E ui pdfSettings fontSize page) in
  (pageWidth pdfpage, pageHeight pdfpage) = pageSizeInPoints page.
Proof.
  unfold exportPage, pageSizeInPoints. cbn zeta.
  set (w := dmul (of_int (rwidth (bbox (pageItem page)))) (docScale (resolution page))).
  set (h := dmul (of_int (rheight (bbox (pageItem page)))) (docScale (resolution page))).
  match goal with
  | |- context [printChildren ?g ?s ?i ?item ?p0] =>
      assert (Hwalk : hasPageSize w h (printChildren (H := PoDoFo_PDFPainter E) g s i item p0))
  end.
  { apply (printChildren_preserves (H := PoDoFo_PDFPainter E)).
    - intros pt p Hp. exact Hp.
    - intros x y t p Hp. exact Hp.
    - intros b i s p Hp. exact Hp.
    - split; reflexivity. }
  destruct (overlay pdfSettings); cbn [fst]; destruct Hwalk as [Hw Hh].
  - unfold PoDoFo_drawImage, emit. cbn [m_page pageWidth pageHeight]. now rewrite Hw, Hh.
  - now rewrite Hw, Hh.
Qed.

(** The page a page is rendered to does not depend on the size the font was
    left at by the page before: line 382 sets it anew. *)
Lemma exportPage_font_irrelevant (pdfSettings : PDFSettings) (f f' : double) (page : HOCRPage) :
  exportPage E ui pdfSettings f page = exportPage E ui pdfSettings f' page.
Proof. reflexivity. Qed.

(** The page loop: the pages rendered and the titles collected. *)
Lemma pageLoop_spec (pdfSettings : PDFSettings) (f0 : double) (pages : list HOCRPage) :
  forall st : PageLoop,
    let st' := fold_left (pageStep E ui pdfSettings) pages st in
    loop_pages st' =
      loop_pages st ++
      map (fun page => fst (exportPage E ui pdfSettings f0 page)) (filter (isRendered E) pages)
    /\ loop_failed st' = loop_failed st ++ map title (filter (isFailed E) pages).
Proof.
  induction pages as [|page pages IH]; intros st; cbn zeta; cbn [fold_left filter].
  - cbn [map]. now rewrite !app_nil_r.
  - destruct (IH (pageStep E ui pdfSettings st page)) as [Hp Hf]. cbn zeta in Hp, Hf.
    rewrite Hp, Hf. unfold pageStep, isRendered, isFailed.
    destruct (isEnabled (pageItem page)); cbn [negb andb]; [|now split].
    destruct (addSource E (sourceFile page)); cbn [negb].
    + rewrite (exportPage_font_irrelevant pdfSettings (loop_fontSize st) f0). cbn [map].
      destruct (exportPage E ui pdfSettings f0 page) as [pdfpage fontSize].
      cbn [loop_pages loop_failed fst]. rewrite <- app_assoc. now split.
    + cbn [loop_pages loop_failed map]. rewrite <- app_assoc. now split.
Qed.

(** C7, as the code has it: the run creates exactly one output page for every
    enabled page whose source is available, in page order, of the size of the
    page's bounding box scaled by [72 / sourceDpi], and none for any other
    page; 2550 x 3300 pixels at 300 DPI give 612 x 792 points. *)
Theorem run_creates_one_scaled_page_per_rendered_page (hocrdocument : list HOCRPage) :
  map (fun pdfpage => (pageWidth pdfpage, pageHeight pdfpage))
      (documentPages (run E ui true hocrdocument)) =
  map pageSizeInPoints (filter (isRendered E) hocrdocument)
  /\ pageSizeInPoints (pageOf "Page 1" "a.png" 2550 3300 300 []) = (of_int 612, of_int 792).
Proof.
  split; [|vm_compute; reflexivity].
  destruct (pageLoop_spec (readSettings ui) (of_int 12) hocrdocument
              (mkPageLoop [] (of_int 12) [])) as [Hp _].
  cbn zeta in Hp. cbn [loop_pages app] in Hp.
  unfold run. cbn [negb].
  destruct (documentClose E _); cbn [documentPages]; rewrite Hp, map_map;
    apply map_ext; intros page; apply exportPage_size.
Qed.
End RunFacts.

(** ** The properties on the samples *)

(** C1 does not hold of the code.  With uniform spacing off, the word loop
    of a line (lines 450-457) draws a word whose enabled flag is false: World
    is disabled and is drawn.  With uniform spacing on, the line loop of a
    paragraph (lines 424-446) draws the words of a line whose enabled flag is
    false: line two is disabled and its word is drawn.  The walk itself
    skips such a line when it reaches it by recursion. *)
Theorem disabled_items_are_drawn :
  isEnabled (word false "World" 400 200 250 60) = false
  /\ sampleCalls (sampleSettings false) (helloWorld false) =
       [CallDrawText (of_int 100) (of_int 247) "Hello";
        CallDrawText (of_int 400) (of_int 247) "World"]
  /\ map isEnabled (children (threeLines false)) = [true; false; true]
  /\ drawnTexts (sampleCalls (sampleSettings true) (threeLines false)) = ["one"; "two"; "three"]%string
  /\ drawnTexts (sampleCalls (sampleSettings false) (threeLines false)) = ["one"; "three"]%string.
Proof. repeat split; vm_compute; reflexivity. Qed.

(** C2 as the specification states it fails: in a paragraph of three lines,
    100 pixels high with its top at 100, the closed form gives 195 for the
    last line, and the walk draws it at the sum of the three increments,
    which is another double. *)
Lemma uniform_baseline_is_not_the_closed_form :
  closedFormBaselineY 100 100 3 2 (-5) = of_int 195
  /\ exists x y,
       In (CallDrawText x y "three") (sampleCalls (sampleSettings true) (threeLines true))
       /\ y <> closedFormBaselineY 100 100 3 2 (-5).
Proof.
  split; [vm_compute; reflexivity|].
  exists (of_int 50).
  exists (dadd (lineY (ddiv (of_int 100) (of_int 3)) 2
                      (dadd (of_int 100) (ddiv (of_int 100) (of_int 3))))
               (of_int (-5))).
  split.
  - vm_compute. right. right. left. reflexivity.
  - intros Heq.
    apply (f_equal (fun v => deq v (of_int 195))) in Heq.
    vm_compute in Heq. discriminate.
Qed.

(** Where every step is exact the two agree: four lines in 100 pixels. *)
Example uniform_baseline_exact_increments :
  forall k, (k < 4)%nat ->
    dadd (lineY (ddiv (of_int 100) (of_int 4)) k (dadd (of_int 100) (ddiv (of_int 100) (of_int 4))))
         (of_int (-5))
    = closedFormBaselineY 100 100 4 k (-5).
Proof.
  intros k Hk.
  assert (Hcases : (k = 0 \/ k = 1 \/ k = 2 \/ k = 3)%nat) by lia.
  destruct Hcases as [->|[->|[->| ->]]]; vm_compute; reflexivity.
Qed.

Lemma uniform_paragraph_baselines_witness :
  isEnabled (threeLines true) = true
  /\ itemClass (threeLines true) = "ocr_par"%string
  /\ uniformizeLineSpacing (sampleSettings true) = true
  /\ exists segs,
       sampleCalls (sampleSettings true) (threeLines true) = [] ++ concat segs
       /\ length segs = 3%nat
       /\ forall k lineItem seg,
            nth_error (children (threeLines true)) k = Some lineItem ->
            nth_error segs k = Some seg ->
            drawnTexts seg = map text (filter isEnabled (children lineItem))
            /\ forall x y t, In (CallDrawText x y t) seg ->
                 y = dadd (lineY (ddiv (of_int 100) (of_int 3)) k
                                 (dadd (of_int 100) (ddiv (of_int 100) (of_int 3))))
                          (of_int (-5)).
Proof.
  split; [reflexivity|]. split; [reflexivity|]. split; [reflexivity|].
  exact (uniform_paragraph_baselines
           (H := PoDoFo_PDFPainter sampleExternal)
           (getSelection sampleExternal (mkDisplayerSetup 1 300 (of_int 0)))
           (sampleSettings true) (of_int 1) (threeLines true) samplePainter
           eq_refl eq_refl eq_refl).
Defined.

(** The boundary of the gap test on the sample: a gap of exactly 100 pixels
    packs the word at the cursor (250), a gap of 101 pixels snaps to the
    word's own left edge. *)
Example gap_at_threshold_does_not_snap :
  sampleCalls (sampleSettings true) (twoWords 300) =
    [CallDrawText (of_int 100) (of_int 248) "Hello";
     CallDrawText (of_int 250) (of_int 248) "World"]
  /\ sampleCalls (sampleSettings true) (twoWords 301) =
    [CallDrawText (of_int 100) (of_int 248) "Hello";
     CallDrawText (of_int 301) (of_int 248) "World"].
Proof. split; vm_compute; reflexivity. Qed.


Lemma uniformWord_disabled_is_skipped_witness :
  isEnabled (word false "World" 400 200 250 60) = false
  /\ uniformWord (H := Recorder_PDFPainter _ (H := PoDoFo_PDFPainter sampleExternal))
       (sampleSettings true) (of_int 260) (-12)
       (mkWordCursor 250 200 samplePainter)
       (word false "World" 400 200 250 60)
     = mkWordCursor 250 200 samplePainter.
Proof.
  split; [reflexivity|].
  exact (proj1 (uniformWord_disabled_is_skipped
                  (H := PoDoFo_PDFPainter sampleExternal)
                  (sampleSettings true) (of_int 260) (-12)
                  (mkWordCursor 250 200 samplePainter)
                  (word false "World" 400 200 250 60) eq_refl)).
Defined.

(** The failure scenario: the source of page 2 is missing; the document has
    the one page of page 1, the report names page 2, and the run returns
    true.  When closing fails as well, a second message follows and the run
    returns false. *)
Example second_page_fails :
  let doc := [helloWorldPage "Page 1" "a.png"; helloWorldPage "Page 2" "missing.png"] in
  let result := run sampleExternal sampleUi true doc in
  returned result = true
  /\ length (documentPages result) = 1%nat
  /\ messages result = [failedMessage ["Page 2"%string]]
  /\ returned (run failingExternal sampleUi true doc) = false
  /\ messages (run failingExternal sampleUi true doc) =
       [failedMessage ["Page 2"%string]; closeMessage "disk full"].
Proof. repeat split; vm_compute; reflexivity. Qed.

(** The end-to-end scenario: one page of 612 x 792 points with two text
    operators and no image. *)
Example hello_world_export :
  documentPages (run sampleExternal sampleUi true [helloWorldPage "Page 1" "a.png"]) =
    [mkPdfPage (of_int 612) (of_int 792)
       [PdfDrawText (of_int 24) (dsub (of_int 792) (dmul (of_int 247) (docScale 300))) "Hello";
        PdfDrawText (of_int 96) (dsub (of_int 792) (dmul (of_int 247) (docScale 300))) "World"]].
Proof. vm_compute. reflexivity. Qed.

(** C7 as the specification states it fails: an enabled page whose source is
    not available gets no output page. *)
Lemma enabled_page_without_source_has_no_output_page :
  let doc := [helloWorldPage "Page 1" "missing.png"] in
  map (fun page => isEnabled (pageItem page)) doc = [true]
  /\ documentPages (run sampleExternal sampleUi true doc) = [].
Proof. split; vm_compute; reflexivity. Qed.

Lemma sampleMono_valid : validImage sampleMono.
Proof.
  unfold validImage, sampleMono. cbn [width height bytesPerLine format scanLines].
  split; [lia|]. split; [lia|]. split; [reflexivity|]. split; [reflexivity|].
  repeat constructor.
Qed.

Lemma zip_rows_are_tightly_packed_witness :
  0 <= 10
  /\ colorFormat (monoSettings CompressZip) <> Format_ARGB32
  /\ zipBytesPerLine (monoSettings CompressZip) 10 = 2
  /\ zipBuffer sampleMono 2 2 = [1; 2; 5; 6].
Proof.
  split; [lia|]. split; [discriminate|].
  destruct (zip_rows_are_tightly_packed (monoSettings CompressZip) 10
              ltac:(lia) ltac:(discriminate)) as (Hbytes & _ & _ & Hbuf).
  split; [exact Hbytes|].
  exact (proj1 (Hbuf sampleMono sampleMono_valid eq_refl eq_refl)).
Defined.

Lemma Mono_is_inverted_on_the_file_backend_only_witness :
  convertsFaithfully sampleExternal
  /\ 0 <= width sampleMono /\ 0 <= height sampleMono
  /\ colorFormat (monoSettings CompressFax4) = Format_Mono
  /\ PoDoFo_samples sampleExternal sampleMono (monoSettings CompressFax4) =
     invertPixels (convertedImage sampleExternal sampleMono Format_Mono ThresholdDither).
Proof.
  split; [exact sampleExternal_converts|].
  split; [simpl; lia|]. split; [simpl; lia|]. split; [reflexivity|].
  exact (proj1 (Mono_is_inverted_on_the_file_backend_only sampleExternal
                  sampleMono (monoSettings CompressFax4) (mkQRect 0 0 10 2)
                  (inner samplePainter) (QPainterPDFPainter_new 12)
                  sampleExternal_converts ltac:(simpl; lia) ltac:(simpl; lia) eq_refl)).
Defined.

(** * Further properties *)

(** ** More on the layout walk *)

Section ConditionalInvariant.
Context {P : Type} `{PDFPainter P}.
Variable getSelection : QRect -> QImage.
Variable pdfSettings : PDFSettings.
Variable imgScale : double.
Variable Inv : P -> Prop.
Hypothesis Inv_setFontSize :
  useDetectedFontSizes pdfSettings = true -> forall pt p, Inv p -> Inv (setFontSize pt p).
Hypothesis Inv_drawText : forall x y t p, Inv p -> Inv (drawText x y t p).
Hypothesis Inv_drawImage :
  overlay pdfSettings = false -> forall b i s p, Inv p -> Inv (drawImage b i s p).

Lemma applyWordFont_preserves_when (wordItem : HOCRItem) (p : P) :
  Inv p -> Inv (applyWordFont pdfSettings wordItem p).
Proof.
  unfold applyWordFont. destruct (useDetectedFontSizes pdfSettings) eqn:Hd; auto.
Qed.

Lemma uniformWords_preserve_when (y : double) (baseline : Z) (words : list HOCRItem) :
  forall st : WordCursor P,
    Inv (cur_painter st) ->
    Inv (cur_painter (fold_left (uniformWord pdfSettings y baseline) words st)).
Proof.
  induction words as [|w words IH]; intros st Hst; cbn [fold_left]; [assumption|].
  apply IH. unfold uniformWord. destruct (isEnabled w); cbn [negb cur_painter]; [|assumption].
  apply Inv_drawText. now apply applyWordFont_preserves_when.
Qed.

Lemma uniformLines_preserve_when (itemRect : QRect) (yInc : double) (baseline : Z)
    (lines : list HOCRItem) :
  forall (y : double) (p : P),
    Inv p ->
    Inv (snd (fold_left (uniformLine pdfSettings itemRect yInc baseline) lines (y, p))).
Proof.
  induction lines as [|l lines IH]; intros y p Hp; cbn [fold_left]; [assumption|].
  apply IH. now apply uniformWords_preserve_when.
Qed.

Lemma printLine_preserves_when (item : HOCRItem) (p : P) :
  Inv p -> Inv (printLine pdfSettings item p).
Proof.
  unfold printLine. generalize (of_int (rbottom (bbox item) + baseLine item)). intros y.
  revert p. induction (children item) as [|w words IH]; intros p Hp; cbn [fold_left];
    [assumption|].
  apply IH. unfold literalWord. apply Inv_drawText. now apply applyWordFont_preserves_when.
Qed.

(** What the drawing methods preserve, each under the setting that lets the
    walk call it, the walk preserves. *)
Lemma printChildren_preserves_when (item : HOCRItem) :
  forall p, Inv p -> Inv (printChildren getSelection pdfSettings imgScale item p).
Proof.
  induction item as [item IH] using HOCRItem_rect_children.
  intros p Hp. destruct item as [en cls b bl fs t cs]. cbn [children] in IH.
  cbn [printChildren isEnabled itemClass children].
  destruct en; cbn [negb]; [|assumption].
  destruct ((cls =? "ocr_par")%string && uniformizeLineSpacing pdfSettings).
  { unfold printUniformParagraph. now apply uniformLines_preserve_when. }
  destruct ((cls =? "ocr_line")%string && negb (uniformizeLineSpacing pdfSettings)).
  { now apply printLine_preserves_when. }
  destruct ((cls =? "ocr_graphic")%string && negb (overlay pdfSettings)) eqn:Hg.
  { unfold printGraphic. apply Inv_drawImage; [|assumption].
    apply andb_true_iff in Hg. destruct Hg as [_ Hg]. now destruct (overlay pdfSettings). }
  revert p Hp. induction IH as [|c rest Hc _ IHrest]; intros p Hp; [assumption|].
  apply IHrest. now apply Hc.
Qed.
End ConditionalInvariant.

Section WalkCalls.
Context {P : Type} `{PDFPainter P}.
Variable getSelection : QRect -> QImage.
Variable pdfSettings : PDFSettings.
Variable imgScale : double.

(** The walk adds calls to the ones a recorder holds; the calls it adds
    satisfy every test that its [drawText] calls pass, that its
    [setFontSize] calls pass when font sizes are detected, and that its
    [drawImage] calls pass outside overlay mode. *)
Lemma printChildren_adds_calls (ok : Call -> bool) (item : HOCRItem) (r : Recorder P) :
  (useDetectedFontSizes pdfSettings = true -> forall pt, ok (CallSetFontSize pt) = true) ->
  (forall x y t, ok (CallDrawText x y t) = true) ->
  (overlay pdfSettings = false -> forall b i s, ok (CallDrawImage b i s) = true) ->
  exists added,
    calls (printChildren getSelection pdfSettings imgScale item r) = calls r ++ added
    /\ forallb ok added = true.
Proof.
  intros Hfont Htext Himage.
  apply (printChildren_preserves_when getSelection pdfSettings imgScale
           (fun r' : Recorder P =>
              exists added, calls r' = calls r ++ added /\ forallb ok added = true)).
  - intros Hd pt p (added & Hc & Hok). exists (added ++ [CallSetFontSize pt]).
    cbn [setFontSize Recorder_PDFPainter calls]. rewrite Hc, app_assoc. split; [reflexivity|].
    rewrite forallb_app, Hok. cbn. now rewrite Hfont.
  - intros x y t p (added & Hc & Hok). exists (added ++ [CallDrawText x y t]).
    cbn [drawText Recorder_PDFPainter calls]. rewrite Hc, app_assoc. split; [reflexivity|].
    rewrite forallb_app, Hok. cbn. now rewrite Htext.
  - intros Ho b i s p (added & Hc & Hok). exists (added ++ [CallDrawImage b i s]).
    cbn [drawImage Recorder_PDFPainter calls]. rewrite Hc, app_assoc. split; [reflexivity|].
    rewrite forallb_app, Hok. cbn. now rewrite Himage.
  - exists []. now rewrite app_nil_r.
Qed.

(** X1: when detected font sizes are not used, the walk never sets the font
    size, whatever the tree. *)
Theorem walk_never_sets_font_size_without_detection
    (item : HOCRItem) (r : Recorder P)
    (Hoff : useDetectedFontSizes pdfSettings = false) :
  exists added,
    calls (printChildren getSelection pdfSettings imgScale item r) = calls r ++ added
    /\ forallb (fun c => negb (isSetFontSizeCall c)) added = true.
Proof.
  apply printChildren_adds_calls; try reflexivity.
  rewrite Hoff. discriminate.
Qed.

(** X2: in overlay mode the walk never draws an image, whatever the tree:
    graphics are left to the page image. *)
Theorem walk_never_draws_images_in_overlay_mode
    (item : HOCRItem) (r : Recorder P)
    (Hoverlay : overlay pdfSettings = true) :
  exists added,
    calls (printChildren getSelection pdfSettings imgScale item r) = calls r ++ added
    /\ forallb (fun c => negb (isDrawImageCall c)) added = true.
Proof.
  apply printChildren_adds_calls; try reflexivity.
  rewrite Hoverlay. discriminate.
Qed.

Lemma literalWords_calls (y : double) (words : list HOCRItem) :
  forall r : Recorder P,
    calls (fold_left (literalWord pdfSettings y) words r) =
    calls r ++ flat_map (literalWordCalls pdfSettings y) words.
Proof.
  induction words as [|w words IH]; intros r; cbn [fold_left flat_map].
  - now rewrite app_nil_r.
  - rewrite IH. unfold literalWord at 1.
    cbn [drawText Recorder_PDFPainter calls]. rewrite applyWordFont_calls.
    unfold literalWordCalls at 2. now rewrite <- !app_assoc.
Qed.

(** X3: a line drawn without uniform spacing gives one [drawText] per child
    word, in order and whether or not the word is enabled, at the word's own
    left edge and at the y of the line's bottom edge plus its baseline,
    preceded by the word's font size when font sizes are detected. *)
Theorem line_draws_every_word_at_its_own_place
    (item : HOCRItem) (r : Recorder P)
    (Hen : isEnabled item = true)
    (Hcls : itemClass item = "ocr_line"%string)
    (Huni : uniformizeLineSpacing pdfSettings = false) :
  calls (printChildren getSelection pdfSettings imgScale item r) =
  calls r ++
  flat_map (literalWordCalls pdfSettings (of_int (rbottom (bbox item) + baseLine item)))
           (children item).
Proof.
  destruct item as [en cls b bl fs t cs]. cbn [isEnabled itemClass] in Hen, Hcls. subst en cls.
  cbn [printChildren isEnabled itemClass negb]. rewrite Huni.
  cbn [String.eqb Ascii.eqb Bool.eqb andb negb].
  unfold printLine. apply literalWords_calls.
Qed.
End WalkCalls.

Section WalkStructure.
Context {P : Type} `{PDFPainter P}.
Variable getSelection : QRect -> QImage.
Variable pdfSettings : PDFSettings.
Variable imgScale : double.

(** X4: below an item whose children the walk visits, a disabled child and
    all that is below it contribute nothing: the walk runs as if the child
    were not there. *)
Theorem disabled_child_is_skipped_by_the_recursion
    (en : bool) (cls : string) (b : QRect) (bl : Z) (fs : double) (t : string)
    (before after : list HOCRItem) (c : HOCRItem) (p : P)
    (Hvisit : visitsChildren pdfSettings cls = true)
    (Hdis : isEnabled c = false) :
  printChildren getSelection pdfSettings imgScale
    (mkHOCRItem en cls b bl fs t (before ++ c :: after)) p =
  printChildren getSelection pdfSettings imgScale
    (mkHOCRItem en cls b bl fs t (before ++ after)) p.
Proof.
  unfold visitsChildren in Hvisit.
  apply andb_true_iff in Hvisit. destruct Hvisit as [Hvisit Hgraphic].
  apply andb_true_iff in Hvisit. destruct Hvisit as [Hpar Hline].
  apply negb_true_iff in Hpar, Hline, Hgraphic.
  cbn [printChildren isEnabled itemClass children].
  rewrite Hpar, Hline, Hgraphic.
  destruct en; cbn [negb]; [|reflexivity].
  set (loop := fix loop (cs : list HOCRItem) (q : P) {struct cs} : P :=
                 match cs with
                 | [] => q
                 | c0 :: rest => loop rest (printChildren getSelection pdfSettings imgScale c0 q)
                 end).
  assert (Happ : forall l1 l2 q, loop (l1 ++ l2) q = loop l2 (loop l1 q)).
  { induction l1 as [|a l1 IH]; intros l2 q; [reflexivity|]. cbn. apply IH. }
  rewrite !Happ. cbn [loop]. now rewrite (printChildren_disabled _ _ _ c) by assumption.
Qed.

Lemma uniformLines_depend_on_words (itemRect : QRect) (yInc : double) (baseline : Z) :
  forall (lines lines' : list HOCRItem) (st : double * P),
    map children lines = map children lines' ->
    fold_left (uniformLine pdfSettings itemRect yInc baseline) lines st =
    fold_left (uniformLine pdfSettings itemRect yInc baseline) lines' st.
Proof.
  induction lines as [|l lines IH]; intros [|l' lines'] st Hmap; try discriminate;
    [reflexivity|].
  cbn [map] in Hmap. inversion Hmap as [[Hl Hrest]].
  cbn [fold_left]. rewrite (IH lines' _ Hrest). f_equal.
  unfold uniformLine. destruct st as [y q]. now rewrite Hl.
Qed.

(** X5: under uniform line spacing a paragraph is drawn from its own
    bounding box, the baseline of its first line and the words of its lines
    alone: the bounding boxes, the enabled flags and the other baselines of
    the lines have no influence. *)
Theorem uniform_paragraph_ignores_line_geometry
    (item item' : HOCRItem) (p : P)
    (Hen : isEnabled item = true) (Hen' : isEnabled item' = true)
    (Hcls : itemClass item = "ocr_par"%string) (Hcls' : itemClass item' = "ocr_par"%string)
    (Huni : uniformizeLineSpacing pdfSettings = true)
    (Hbox : bbox item = bbox item')
    (Hfirst : option_map baseLine (hd_error (children item)) =
              option_map baseLine (hd_error (children item')))
    (Hwords : map children (children item) = map children (children item')) :
  printChildren getSelection pdfSettings imgScale item p =
  printChildren getSelection pdfSettings imgScale item' p.
Proof.
  rewrite !printChildren_uniform_paragraph by assumption.
  unfold printUniformParagraph.
  assert (Hlen : length (children item) = length (children item')).
  { rewrite <- (length_map children (children item)), Hwords. apply length_map. }
  rewrite <- Hbox, <- Hlen.
  replace (match children item' with c :: _ => baseLine c | [] => 0 end)
    with (match children item with c :: _ => baseLine c | [] => 0 end).
  - f_equal. now apply uniformLines_depend_on_words.
  - destruct (children item), (children item'); try discriminate; [reflexivity|].
    cbn in Hfirst. now inversion Hfirst.
Qed.
End WalkStructure.

(** The walk uses a renderer through its five methods only: related
    renderers stay related. *)
Section Simulation.
Context {P Q : Type} {HP : PDFPainter P} {HQ : PDFPainter Q}.
Variable getSelection : QRect -> QImage.
Variable pdfSettings : PDFSettings.
Variable imgScale : double.
Variable R : P -> Q -> Prop.
Hypothesis R_setFontSize : forall pt p q, R p q -> R (setFontSize pt p) (setFontSize pt q).
Hypothesis R_drawText : forall x y t p q, R p q -> R (drawText x y t p) (drawText x y t q).
Hypothesis R_drawImage : forall b i s p q, R p q -> R (drawImage b i s p) (drawImage b i s q).
Hypothesis R_averageCharWidth : forall p q, R p q -> getAverageCharWidth p = getAverageCharWidth q.
Hypothesis R_textWidth : forall t p q, R p q -> getTextWidth t p = getTextWidth t q.

Lemma applyWordFont_related (w : HOCRItem) (p : P) (q : Q) :
  R p q -> R (applyWordFont pdfSettings w p) (applyWordFont pdfSettings w q).
Proof. unfold applyWordFont. destruct (useDetectedFontSizes pdfSettings); auto. Qed.

Lemma uniformWord_related (y : double) (baseline : Z) (w : HOCRItem)
    (st : WordCursor P) (st' : WordCursor Q) :
  relatedCursors R st st' ->
  relatedCursors R (uniformWord pdfSettings y baseline st w)
                 (uniformWord pdfSettings y baseline st' w).
Proof.
  intros (Hx & Hprev & Hp). unfold uniformWord.
  destruct (isEnabled w); cbn [negb]; [|now repeat split].
  pose proof (applyWordFont_related w _ _ Hp) as Hfont.
  unfold keepsSpace, gapThreshold.
  rewrite (R_averageCharWidth _ _ Hfont), Hx, Hprev.
  set (x1 := if dgt _ _ then _ else _).
  pose proof (R_drawText (of_int x1) (dadd y (of_int baseline)) (text w) _ _ Hfont) as Hdraw.
  split; [|split]; cbn [cur_x cur_prevWordRight cur_painter]; try reflexivity; try assumption.
  now rewrite (R_textWidth _ _ _ Hdraw).
Qed.

Lemma uniformWords_related (y : double) (baseline : Z) (words : list HOCRItem) :
  forall st st', relatedCursors R st st' ->
    relatedCursors R (fold_left (uniformWord pdfSettings y baseline) words st)
                   (fold_left (uniformWord pdfSettings y baseline) words st').
Proof.
  induction words as [|w words IH]; intros st st' Hst; cbn [fold_left]; [assumption|].
  apply IH. now apply uniformWord_related.
Qed.

Lemma uniformLines_related (itemRect : QRect) (yInc : double) (baseline : Z)
    (lines : list HOCRItem) :
  forall (y : double) p q, R p q ->
    R (snd (fold_left (uniformLine pdfSettings itemRect yInc baseline) lines (y, p)))
      (snd (fold_left (uniformLine pdfSettings itemRect yInc baseline) lines (y, q))).
Proof.
  induction lines as [|l lines IH]; intros y p q Hpq; cbn [fold_left]; [assumption|].
  cbn [uniformLine]. apply IH.
  apply (uniformWords_related y baseline (children l)
           (mkWordCursor (rx itemRect) (rx itemRect) p)
           (mkWordCursor (rx itemRect) (rx itemRect) q)).
  now repeat split.
Qed.

Lemma printLine_related (item : HOCRItem) p q :
  R p q -> R (printLine pdfSettings item p) (printLine pdfSettings item q).
Proof.
  unfold printLine. generalize (of_int (rbottom (bbox item) + baseLine item)). intros y.
  revert p q. induction (children item) as [|w words IH]; intros p q Hpq; cbn [fold_left];
    [assumption|].
  apply IH. unfold literalWord. apply R_drawText. now apply applyWordFont_related.
Qed.

Lemma printChildren_related (item : HOCRItem) :
  forall p q, R p q ->
    R (printChildren getSelection pdfSettings imgScale item p)
      (printChildren getSelection pdfSettings imgScale item q).
Proof.
  induction item as [item IH] using HOCRItem_rect_children.
  intros p q Hpq. destruct item as [en cls b bl fs t cs]. cbn [children] in IH.
  cbn [printChildren isEnabled itemClass children].
  destruct en; cbn [negb]; [|assumption].
  destruct ((cls =? "ocr_par")%string && uniformizeLineSpacing pdfSettings).
  { unfold printUniformParagraph. now apply uniformLines_related. }
  destruct ((cls =? "ocr_line")%string && negb (uniformizeLineSpacing pdfSettings)).
  { now apply printLine_related. }
  destruct ((cls =? "ocr_graphic")%string && negb (overlay pdfSettings)).
  { unfold printGraphic. now apply R_drawImage. }
  revert p q Hpq. induction IH as [|c rest Hc _ IHrest]; intros p q Hpq; [assumption|].
  apply IHrest. now apply Hc.
Qed.
End Simulation.

Section Replay.
Context {P : Type} `{PDFPainter P}.
Variable getSelection : QRect -> QImage.
Variable pdfSettings : PDFSettings.
Variable imgScale : double.

Lemma replay_snoc (cs : list Call) (c : Call) (p : P) :
  replay (cs ++ [c]) p = issue (replay cs p) c.
Proof. unfold replay. now rewrite fold_left_app. Qed.

(** A recorder does not change what the walk does to the renderer inside. *)
Lemma recorder_is_transparent (item : HOCRItem) (r : Recorder P) :
  inner (printChildren getSelection pdfSettings imgScale item r) =
  printChildren getSelection pdfSettings imgScale item (inner r).
Proof.
  apply (printChildren_related getSelection pdfSettings imgScale
           (fun (r' : Recorder P) (p : P) => inner r' = p)); try reflexivity.
  - intros pt p q <-. reflexivity.
  - intros x y t p q <-. reflexivity.
  - intros b i s p q <-. reflexivity.
  - intros p q <-. reflexivity.
  - intros t p q <-. reflexivity.
Qed.

(** The walk on a renderer ends where replaying its recorded calls ends. *)
Lemma printChildren_replays (item : HOCRItem) (p : P) :
  printChildren getSelection pdfSettings imgScale item p =
  replay (calls (printChildren getSelection pdfSettings imgScale item (mkRecorder p []))) p.
Proof.
  pose proof (recorder_is_transparent item (mkRecorder p [])) as Hinner.
  cbn [inner] in Hinner. rewrite <- Hinner.
  apply (printChildren_preserves getSelection pdfSettings imgScale
           (fun r : Recorder P => inner r = replay (calls r) p)).
  - intros pt r Hr. cbn [setFontSize Recorder_PDFPainter inner calls].
    now rewrite replay_snoc, <- Hr.
  - intros x y t r Hr. cbn [drawText Recorder_PDFPainter inner calls].
    now rewrite replay_snoc, <- Hr.
  - intros b i s r Hr. cbn [drawImage Recorder_PDFPainter inner calls].
    now rewrite replay_snoc, <- Hr.
  - reflexivity.
Qed.

(** X6: what the walk does to a renderer is what the calls it issues do,
    one after the other: the walk on [p] ends in the state that replaying
    the recorded calls on [p] ends in. *)
Theorem walk_is_the_replay_of_its_calls (item : HOCRItem) (p : P) :
  printChildren getSelection pdfSettings imgScale item p =
  replay (calls (printChildren getSelection pdfSettings imgScale item (mkRecorder p []))) p.
Proof. exact (printChildren_replays item p). Qed.
End Replay.

(** ** More on the file back end *)

Section FileBackendMore.
Variable E : External.

(** X7: on a file back end constructed with scale factor [s] on a page of
    height [H], whatever calls it has served since, [drawImage] appends one
    image operator: its lower left corner at [(x*s, H - (y+h)*s)] for the
    box [(x, y, w, h)], scaled by [s*w] and [s*h] over the width and the
    height of the source image. *)
Theorem PoDoFo_drawImage_places_the_box
    (page : PdfPage) (fontSize s : double) (history : list Call)
    (b : QRect) (image : QImage) (settings : PDFSettings) :
  let painter :=
    replay (H := PoDoFo_PDFPainter E) history (PoDoFoPDFPainter_new page fontSize s) in
  pageContent (m_page (drawImage (PDFPainter := PoDoFo_PDFPainter E) b image settings painter)) =
  pageContent (m_page painter) ++
  [PdfDrawImage (dmul (of_int (rx b)) s)
                (dsub (pageHeight page) (dmul (of_int (ry b + rheight b)) s))
                (PoDoFo_pdfImage E (PoDoFo_samples E image settings) settings)
                (ddiv (dmul s (of_int (rwidth b))) (of_int (width image)))
                (ddiv (dmul s (of_int (rheight b))) (of_int (height image)))].
Proof.
  intros painter.
  destruct (replay_keeps_geometry E history (PoDoFoPDFPainter_new page fontSize s))
    as [Hs Hh].
  fold painter in Hs, Hh. cbn [PoDoFoPDFPainter_new m_scaleFactor m_pageHeight] in Hs, Hh.
  cbn [drawImage PoDoFo_PDFPainter]. unfold PoDoFo_drawImage, emit.
  cbn [m_page pageContent]. now rewrite Hs, Hh.
Qed.

Lemma invertPixels_geometry (img : QImage) :
  format (invertPixels img) = format img
  /\ width (invertPixels img) = width img
  /\ height (invertPixels img) = height img.
Proof. repeat split. Qed.

(** X8: the dictionary of the image object agrees with the settings and
    with the source image: its size is the size of the source image, it has
    one bit per component for monochrome and eight otherwise, the colour
    space is RGB for the colour format and gray otherwise, the filter is the
    one of the compression, and CCITT data carries the columns, the rows
    and K = -1. *)
Theorem image_dictionary_follows_the_settings
    (image : QImage) (settings : PDFSettings)
    (Hconv : convertsFaithfully E)
    (Hwidth : 0 <= width image) (Hheight : 0 <= height image) :
  let pdfImage := PoDoFo_pdfImage E (PoDoFo_samples E image settings) settings in
  img_width pdfImage = width image
  /\ img_height pdfImage = height image
  /\ img_bitsPerComponent pdfImage =
       (if Format_eqb (colorFormat settings) Format_Mono then 1 else 8)
  /\ img_colorSpace pdfImage =
       (if Format_eqb (colorFormat settings) Format_RGB888 then DeviceRGB else DeviceGray)
  /\ img_filter pdfImage =
       match compression settings with
       | CompressZip => FlateDecode
       | CompressFax4 => CCITTFaxDecode
       | CompressJpeg => DCTDecode
       end
  /\ img_decodeParms pdfImage =
       match compression settings with
       | CompressFax4 => Some (width image, height image, -1)
       | _ => None
       end
  /\ img_raw pdfImage =
       match compression settings with CompressZip => false | _ => true end.
Proof.
  intros pdfImage.
  destruct (Hconv image (colorFormat settings) (conversionFlags settings) Hwidth Hheight)
    as (_ & Hformat & Hw & Hh).
  assert (Hgeo : format (PoDoFo_samples E image settings) = colorFormat settings
                 /\ width (PoDoFo_samples E image settings) = width image
                 /\ height (PoDoFo_samples E image settings) = height image).
  { unfold PoDoFo_samples, convertedImage.
    destruct (Format_eqb (colorFormat settings) Format_Mono); auto. }
  destruct Hgeo as (Hf' & Hw' & Hh').
  unfold pdfImage, PoDoFo_pdfImage. rewrite Hf', Hw', Hh'.
  destruct (compression settings); repeat split.
Qed.

(** The buffer of the Zip path for a valid image of the colour format. *)
Lemma zipBuffer_length (settings : PDFSettings) (img : QImage) :
  colorFormat settings <> Format_ARGB32 ->
  validImage img -> format img = colorFormat settings ->
  Z.of_nat (length (zipBuffer img (zipBytesPerLine settings (width img)) (height img))) =
  zipBytesPerLine settings (width img) * height img.
Proof.
  intros Hfmt Hvalid Himg.
  destruct (packed_row_fits settings img Hfmt Hvalid Himg) as [Hb0 Hbn].
  destruct Hvalid as (_ & Hh & Hstride & Hrows & Hlen).
  set (b := zipBytesPerLine settings (width img)) in *.
  assert (Hnat : Forall (fun r => length r = Z.to_nat (bytesPerLine img)) (scanLines img)).
  { revert Hlen. apply Forall_impl. intros r Hr. lia. }
  unfold zipBuffer.
  replace (Z.to_nat (b * height img))
    with (Z.to_nat b * length (scanLines img))%nat by nia.
  replace (Z.to_nat (height img)) with (length (scanLines img)) by lia.
  rewrite (zipBuffer_loop img (Z.to_nat b) (Z.to_nat (bytesPerLine img)) b);
    try lia; try assumption.
  rewrite firstn_all, Nat.sub_diag, Nat.mul_0_r. cbn [repeat]. rewrite app_nil_r.
  rewrite (packed_length (Z.to_nat b) (Z.to_nat (bytesPerLine img))); try assumption; nia.
Qed.

(** X9: on the Zip path the stream handed to the container holds exactly
    the bytes its dictionary announces:
    [ceil(width*bitsPerSample*channels/8) * height] for the size of the
    source image and the colour format of the settings. *)
Theorem zip_stream_has_the_announced_length
    (image : QImage) (settings : PDFSettings)
    (Hconv : convertsFaithfully E)
    (Hwidth : 0 <= width image) (Hheight : 0 <= height image)
    (Hfmt : colorFormat settings <> Format_ARGB32)
    (Hzip : compression settings = CompressZip) :
  Z.of_nat (length (img_data (PoDoFo_pdfImage E (PoDoFo_samples E image settings) settings))) =
  packedBytesPerRow (colorFormat settings) (width image) * height image.
Proof.
  destruct (PoDoFo_samples_valid E image settings Hconv Hwidth Hheight Hfmt)
    as (Hvalid & Hformat & Hw).
  assert (Hh : height (PoDoFo_samples E image settings) = height image).
  { destruct (Hconv image (colorFormat settings) (conversionFlags settings) Hwidth Hheight)
      as (_ & _ & _ & Hh).
    unfold PoDoFo_samples, convertedImage.
    destruct (Format_eqb (colorFormat settings) Format_Mono); assumption. }
  pose proof (zipBuffer_length settings _ Hfmt Hvalid Hformat) as Hlen.
  unfold PoDoFo_pdfImage. rewrite Hzip. cbn [img_data].
  rewrite firstn_all2 by lia. rewrite Hlen, Hw, Hh.
  rewrite zipBytesPerLine_ceiling by assumption.
  unfold packedBytesPerRow. destruct (colorFormat settings); try congruence; reflexivity.
Qed.

(** The page of a file back end after a list of calls. *)
Lemma replay_content (cs : list Call) :
  forall p : PoDoFoPDFPainter,
    pageContent (m_page (replay (H := PoDoFo_PDFPainter E) cs p)) =
    pageContent (m_page p) ++
    flat_map (pdfOpsOfCall E (m_scaleFactor p) (m_pageHeight p)) cs.
Proof.
  unfold replay. induction cs as [|c cs IH]; intros p; cbn [fold_left flat_map].
  - now rewrite app_nil_r.
  - rewrite IH. destruct (issue_keeps_geometry E c p) as [Hs Hh]. rewrite Hs, Hh.
    destruct c; cbn [issue setFontSize drawText drawImage PoDoFo_PDFPainter pdfOpsOfCall];
      unfold PoDoFo_setFontSize, PoDoFo_drawText, PoDoFo_drawImage, emit;
      cbn [m_page pageContent app]; now rewrite <- ?app_assoc.
Qed.
End FileBackendMore.

(** ** More on the preview back end *)

Section PreviewBackend.
Variable E : External.

(** X10: on the preview back end setting the same font size twice is
    setting it once, whether or not the size is the cached one. *)
Theorem QPainter_setFontSize_idempotent (pointSize : double) (p : QPainterPDFPainter) :
  QPainter_setFontSize pointSize (QPainter_setFontSize pointSize p) =
  QPainter_setFontSize pointSize p.
Proof.
  unfold QPainter_setFontSize.
  destruct (dne pointSize (of_int (m_curFontSize p))) eqn:Hne.
  - cbn [m_curFontSize qp_fontPointSize qp_canvas].
    destruct (dne pointSize (of_int (to_int pointSize))); [|reflexivity].
    destruct (0 <? to_int pointSize); reflexivity.
  - now rewrite Hne.
Qed.

Lemma issue_keeps_cache_coherent (c : Call) (p : QPainterPDFPainter) :
  cacheCoherent p -> cacheCoherent (issue (H := QPainter_PDFPainter E) p c).
Proof.
  unfold cacheCoherent. intros Hp.
  destruct c; cbn [issue setFontSize drawText drawImage QPainter_PDFPainter];
    try exact Hp.
  unfold QPainter_setFontSize.
  destruct (dne pointSize (of_int (m_curFontSize p))); [|exact Hp].
  cbn [m_curFontSize qp_fontPointSize]. intros Hpos.
  apply Z.ltb_lt in Hpos. now rewrite Hpos.
Qed.

(** X11: on the preview back end the cached font size stays the point size
    of the painter's font, as long as it is a valid point size, through any
    calls. *)
Theorem QPainter_font_cache_is_coherent (fontPointSize : Z) (history : list Call) :
  cacheCoherent (replay (H := QPainter_PDFPainter E) history
                        (QPainterPDFPainter_new fontPointSize)).
Proof.
  assert (Hall : forall p, cacheCoherent p ->
                           cacheCoherent (replay (H := QPainter_PDFPainter E) history p)).
  { unfold replay. induction history as [|c history IH]; intros p Hp; cbn [fold_left];
      [assumption|].
    apply IH. now apply issue_keeps_cache_coherent. }
  apply Hall. intros _. reflexivity.
Qed.
End PreviewBackend.

(** ** More on the export run *)

Lemma Forall2_map_left {A B : Type} (Q : B -> A -> Prop) (f : A -> B) (l : list A) :
  (forall a, In a l -> Q (f a) a) -> Forall2 Q (map f l) l.
Proof.
  induction l as [|a l IH]; intros Hall; cbn [map]; constructor.
  - apply Hall. now left.
  - apply IH. intros a' Ha'. apply Hall. now right.
Qed.

Section RunMore.
Variable E : External.
Variable ui : Ui.

(** The page [exportPage] produces is the rendered page: the empty page
    of the size of the bounding box in points with, one by one, the calls of
    the walk and in overlay mode the page image put through the file back
    end. *)
Lemma exportPage_renders (pdfSettings : PDFSettings) (fontSize : double) (page : HOCRPage) :
  fst (exportPage E ui pdfSettings fontSize page) = renderedPage E ui pdfSettings page.
Proof.
  pose proof (exportPage_size E ui pdfSettings fontSize page) as Hsize.
  cbn zeta in Hsize. unfold pageSizeInPoints in Hsize.
  assert (Hcontent :
    pageContent (fst (exportPage E ui pdfSettings fontSize page)) =
    pageContent (renderedPage E ui pdfSettings page)).
  { unfold renderedPage, walkCalls, pageImageCall, pageSetup, scaledPageBox.
    cbn [pageContent].
    set (box := bbox (pageItem page)).
    set (s := docScale (resolution page)).
    set (imgScale := ddiv (of_int (spinBoxDpi ui)) (of_int (resolution page))).
    set (setup := mkDisplayerSetup (pageNr page) (spinBoxDpi ui) (angle page)).
    set (pdfpage :=
           mkPdfPage (dmul (of_int (rwidth box)) s) (dmul (of_int (rheight box)) s) []).
    set (pdfprinter :=
           PoDoFo_setFontSize (of_int (fontPointSize ui))
                              (PoDoFoPDFPainter_new pdfpage (of_int 12) s)).
    set (walk := calls (printChildren _ _ _ _ (mkRecorder pdfprinter []))).
    set (scaledBBox := mkQRect _ _ _ _).
    assert (Hwalk :
      printChildren (H := PoDoFo_PDFPainter E) (getSelection E setup) pdfSettings imgScale
        (pageItem page) pdfprinter =
      replay (H := PoDoFo_PDFPainter E) (walk ++ []) pdfprinter).
    { rewrite app_nil_r. apply (printChildren_replays (H := PoDoFo_PDFPainter E)). }
    rewrite (exportPage_font_irrelevant E ui pdfSettings fontSize (of_int 12)).
    unfold exportPage. fold box s imgScale setup pdfpage pdfprinter. cbn zeta.
    fold scaledBBox.
    destruct (overlay pdfSettings); cbn [fst].
    - change (PoDoFo_drawImage E box (getSelection E setup scaledBBox) pdfSettings
                (printChildren (H := PoDoFo_PDFPainter E) (getSelection E setup) pdfSettings
                   imgScale (pageItem page) pdfprinter))
        with (issue (H := PoDoFo_PDFPainter E)
                (printChildren (H := PoDoFo_PDFPainter E) (getSelection E setup) pdfSettings
                   imgScale (pageItem page) pdfprinter)
                (CallDrawImage box (getSelection E setup scaledBBox) pdfSettings)).
      rewrite Hwalk, app_nil_r, <- replay_snoc, replay_content. reflexivity.
    - rewrite Hwalk, replay_content. reflexivity. }
  destruct (fst (exportPage E ui pdfSettings fontSize page)) as [w h content].
  cbn [pageWidth pageHeight pageContent] in Hsize, Hcontent.
  inversion Hsize. subst. reflexivity.
Qed.

(** X12: the content of an exported page is the calls of the layout walk,
    taken through the scaling and the flip of the file back end one by one,
    followed in overlay mode by the image of the whole page.  What holds of
    the calls of the walk holds of the page. *)
Theorem exportPage_content_is_the_calls_of_the_walk
    (pdfSettings : PDFSettings) (fontSize : double) (page : HOCRPage) :
  let box := bbox (pageItem page) in
  let s := docScale (resolution page) in
  let imgScale := ddiv (of_int (spinBoxDpi ui)) (of_int (resolution page)) in
  let setup := mkDisplayerSetup (pageNr page) (spinBoxDpi ui) (angle page) in
  let pdfpage := mkPdfPage (dmul (of_int (rwidth box)) s) (dmul (of_int (rheight box)) s) [] in
  let pdfprinter :=
    PoDoFo_setFontSize (of_int (fontPointSize ui)) (PoDoFoPDFPainter_new pdfpage fontSize s) in
  let walk :=
    calls (printChildren (H := Recorder_PDFPainter _ (H := PoDoFo_PDFPainter E))
             (getSelection E setup) pdfSettings imgScale (pageItem page)
             (mkRecorder pdfprinter [])) in
  let scaledBBox :=
    mkQRect (to_int (dmul imgScale (of_int (rleft box))))
            (to_int (dmul imgScale (of_int (rtop box))))
            (to_int (dmul imgScale (of_int (rwidth box))))
            (to_int (dmul imgScale (of_int (rheight box)))) in
  pageContent (fst (exportPage E ui pdfSettings fontSize page)) =
  flat_map (pdfOpsOfCall E s (pageHeight pdfpage))
    (walk ++
     if overlay pdfSettings
     then [CallDrawImage box (getSelection E setup scaledBBox) pdfSettings]
     else []).
Proof.
  intros box s imgScale setup pdfpage pdfprinter walk scaledBBox.
  rewrite exportPage_renders. reflexivity.
Qed.

(** The pages of the document of an accepted run. *)
Lemma run_documentPages (hocrdocument : list HOCRPage) :
  documentPages (run E ui true hocrdocument) =
  map (fun page => fst (exportPage E ui (readSettings ui) (of_int 12) page))
      (filter (isRendered E) hocrdocument).
Proof.
  destruct (pageLoop_spec E ui (readSettings ui) (of_int 12) hocrdocument
              (mkPageLoop [] (of_int 12) [])) as [Hp _].
  cbn zeta in Hp. cbn [loop_pages app] in Hp.
  unfold run. cbn [negb]. destruct (documentClose E _); cbn [documentPages]; exact Hp.
Qed.

(** The document of an accepted run: the rendered pages of the enabled
    pages whose source is available. *)
Lemma run_renders (hocrdocument : list HOCRPage) :
  documentPages (run E ui true hocrdocument) =
  map (renderedPage E ui (readSettings ui)) (filter (isRendered E) hocrdocument).
Proof.
  rewrite run_documentPages. apply map_ext. intros page. apply exportPage_renders.
Qed.

(** C5: every enabled page whose source is available is rendered, in order,
    whatever happened to the pages before it: the document holds, for each
    of them, the page of its size in points with the calls of the layout walk
    on it.  The titles of the enabled pages whose source is not available
    are reported, one per line, in one message box after the loop.  The
    document is closed in either case; a failure to close is reported in a
    message box of its own, with the message of the error, and the run
    returns false exactly when closing failed. *)
Theorem run_reports_page_failures_and_finalizes (hocrdocument : list HOCRPage) :
  let result := run E ui true hocrdocument in
  let failed := map title (filter (isFailed E) hocrdocument) in
  documentPages result =
    map (renderedPage E ui (readSettings ui)) (filter (isRendered E) hocrdocument)
  /\ messages result =
       match failed with
       | [] => []
       | _ :: _ =>
           [Warning "Errors occurred"
              ("The following pages could not be rendered:" ++ newline
               ++ String.concat newline failed)]
       end ++
       match documentClose E (documentPages result) with
       | Some what => [Warning "Export failed" ("The PDF export failed (" ++ what ++ ").")]
       | None => []
       end
  /\ (returned result = true <-> documentClose E (documentPages result) = None)
  /\ (returned result = false <->
      exists what, documentClose E (documentPages result) = Some what).
Proof.
  intros result failed.
  split; [apply run_renders|].
  destruct (pageLoop_spec E ui (readSettings ui) (of_int 12) hocrdocument
              (mkPageLoop [] (of_int 12) [])) as [_ Hf].
  cbn zeta in Hf. cbn [loop_failed app] in Hf. fold failed in Hf.
  unfold result, run. cbn [negb]. rewrite Hf.
  destruct (documentClose E _) as [what|] eqn:Hclose;
    cbn [documentPages messages returned]; rewrite Hclose.
  - repeat split; try discriminate; eauto.
  - rewrite app_nil_r. repeat split; try discriminate.
    intros [what Hwhat]. discriminate.
Qed.

Lemma overlay_page_content (pdfSettings : PDFSettings) (page : HOCRPage) :
  overlay pdfSettings = true ->
  let box := bbox (pageItem page) in
  let s := docScale (resolution page) in
  let source := getSelection E (pageSetup ui page) (scaledPageBox ui page) in
  exists texts,
    pageContent (renderedPage E ui pdfSettings page) =
      texts ++
      [PdfDrawImage
         (dmul (of_int (rx box)) s)
         (dsub (pageHeight (renderedPage E ui pdfSettings page))
               (dmul (of_int (ry box + rheight box)) s))
         (PoDoFo_pdfImage E (PoDoFo_samples E source pdfSettings) pdfSettings)
         (ddiv (dmul s (of_int (rwidth box))) (of_int (width source)))
         (ddiv (dmul s (of_int (rheight box))) (of_int (height source)))]
    /\ forallb isTextOp texts = true.
Proof.
  intros Hoverlay box s source.
  unfold renderedPage. cbn [pageContent pageHeight]. rewrite Hoverlay.
  rewrite flat_map_app. cbn [flat_map pdfOpsOfCall pageImageCall app].
  eexists. split; [reflexivity|].
  unfold walkCalls.
  match goal with
  | |- context [calls (printChildren ?g ?st ?i ?item ?r)] =>
      destruct (printChildren_adds_calls (H := PoDoFo_PDFPainter E) g st i
                  (fun c => negb (isDrawImageCall c)) item r)
        as (added & Hcalls & Hnone)
  end; try reflexivity.
  { rewrite Hoverlay. discriminate. }
  cbn [calls app] in Hcalls. rewrite Hcalls.
  clear Hcalls. induction added as [|c added IH]; [reflexivity|].
  cbn [forallb] in Hnone. apply andb_true_iff in Hnone. destruct Hnone as [Hc Hrest].
  cbn [flat_map]. rewrite forallb_app, (IH Hrest), andb_true_r.
  destruct c; try reflexivity. discriminate.
Qed.

(** X13: in overlay mode every page of the document is text, followed by
    exactly one image operator, and that operator is the image of the page:
    the region of the page's scaled bounding box as the displayer gives it,
    placed on the page's bounding box.  It is emitted after, and so painted
    over, the text; the walk has drawn no image. *)
Theorem overlay_pages_are_text_then_the_page_image
    (hocrdocument : list HOCRPage)
    (Hoverlay : comboBoxOutputMode ui = 1) :
  Forall2
    (fun pdfpage page =>
       let box := bbox (pageItem page) in
       let s := docScale (resolution page) in
       let source := getSelection E (pageSetup ui page) (scaledPageBox ui page) in
       exists texts,
         pageContent pdfpage =
           texts ++
           [PdfDrawImage
              (dmul (of_int (rx box)) s)
              (dsub (pageHeight pdfpage) (dmul (of_int (ry box + rheight box)) s))
              (PoDoFo_pdfImage E (PoDoFo_samples E source (readSettings ui)) (readSettings ui))
              (ddiv (dmul s (of_int (rwidth box))) (of_int (width source)))
              (ddiv (dmul s (of_int (rheight box))) (of_int (height source)))]
         /\ forallb isTextOp texts = true)
    (documentPages (run E ui true hocrdocument))
    (filter (isRendered E) hocrdocument).
Proof.
  rewrite run_renders. apply Forall2_map_left. intros page _.
  apply overlay_page_content. cbn [readSettings overlay]. now rewrite Hoverlay.
Qed.

(** X14: the run renders a page or reports it: the pages of the document
    and the pages named in the report are, together, the enabled pages. *)
Theorem every_enabled_page_is_rendered_or_reported (hocrdocument : list HOCRPage) :
  (length (documentPages (run E ui true hocrdocument))
   + length (filter (isFailed E) hocrdocument))%nat =
  length (filter (fun page => isEnabled (pageItem page)) hocrdocument).
Proof.
  rewrite run_documentPages, length_map.
  induction hocrdocument as [|page pages IH]; [reflexivity|].
  cbn [filter]. unfold isRendered, isFailed in *.
  destruct (isEnabled (pageItem page)); cbn [andb negb]; [|assumption].
  destruct (addSource E (sourceFile page)); cbn [negb length]; lia.
Qed.

(** X15: pages are exported independently of each other: the document of
    two lists of pages, one after the other, is the documents of the two
    lists, one after the other. *)
Theorem run_exports_pages_independently (first second : list HOCRPage) :
  documentPages (run E ui true (first ++ second)) =
  documentPages (run E ui true first) ++ documentPages (run E ui true second).
Proof.
  rewrite !run_documentPages, filter_app, map_app. reflexivity.
Qed.
End RunMore.

(** ** The preview *)

Section PreviewFacts.
Variable E : External.
Variable ui : Ui.
Variable checkBoxPreview : bool.
Variable setup : DisplayerSetup.
Variable defaultImgScale : double.

(** X16: in overlay mode a visible preview of a document with pages shows
    the page image first, painted before the veil, and text alone after it;
    the walk paints no image of its own. *)
Theorem overlay_preview_is_the_page_image_then_text
    (pageCount : Z) (page : HOCRPage) (item : PreviewItem)
    (Hpages : pageCount <> 0)
    (Hchecked : checkBoxPreview = true)
    (Hoverlay : comboBoxOutputMode ui = 1) :
  exists pix texts,
    option_map pv_pixmap
      (updatePreview E ui checkBoxPreview setup defaultImgScale pageCount page (Some item))
      = Some (Some pix)
    /\ pix_canvas pix =
         CanvasImage (bbox (pageItem page))
           (QPainter_image E (getSelection E setup (bbox (pageItem page))) (readSettings ui))
         :: texts
    /\ forallb isCanvasText texts = true
    /\ pix_paintedBeforeFill pix = 1%nat
    /\ pix_fill pix = FillVeil.
Proof.
  unfold updatePreview. rewrite Hchecked.
  apply Z.eqb_neq in Hpages. rewrite Hpages. cbn [orb negb option_map pv_pixmap].
  assert (Ho : overlay (readSettings ui) = true)
    by (cbn [readSettings overlay]; now rewrite Hoverlay).
  unfold renderPreview. rewrite Ho.
  set (first := QPainter_drawImage E _ _ _ _).
  assert (Hwalk : exists texts,
            qp_canvas (printChildren (H := QPainter_PDFPainter E) (getSelection E setup)
                         (readSettings ui) defaultImgScale (pageItem page) first)
            = qp_canvas first ++ texts /\ forallb isCanvasText texts = true).
  { apply (printChildren_preserves_when (H := QPainter_PDFPainter E)
             (getSelection E setup) (readSettings ui) defaultImgScale
             (fun p => exists texts, qp_canvas p = qp_canvas first ++ texts
                                     /\ forallb isCanvasText texts = true)).
    - intros _ pt p (texts & Hc & Hok). exists texts. split; [|assumption].
      cbn [setFontSize QPainter_PDFPainter]. unfold QPainter_setFontSize.
      destruct (dne _ _); assumption.
    - intros x y t p (texts & Hc & Hok). eexists.
      cbn [drawText QPainter_PDFPainter QPainter_drawText qp_canvas].
      rewrite Hc, <- app_assoc. split; [reflexivity|].
      now rewrite forallb_app, Hok.
    - rewrite Ho. discriminate.
    - exists []. now rewrite app_nil_r. }
  destruct Hwalk as (texts & Hcanvas & Htexts).
  eexists. exists texts. split; [reflexivity|].
  cbn [pix_canvas pix_paintedBeforeFill pix_fill]. rewrite Hcanvas. repeat split; assumption.
Qed.
End PreviewFacts.

(** ** The handlers of the format and compression boxes *)

(** X17: after the handler of the format box the compression fits the
    format: CCITT Group 4 is current with monochrome only, JPEG never with
    monochrome; the current compression is one that can be selected, and
    the dithering controls are enabled for monochrome exactly. *)
Theorem imageFormatChanged_makes_compression_fit (w : DialogWidgets) :
  let w' := imageFormatChanged w in
  compressionFitsFormat w'
  /\ imageFormatData w' = imageFormatData w
  /\ ccittSelectable w' = isMono (imageFormatData w)
  /\ jpegSelectable w' = negb (isMono (imageFormatData w))
  /\ ditheringEnabled w' = isMono (imageFormatData w)
  /\ (isFax4 (imageCompressionData w') = true -> ccittSelectable w' = true)
  /\ (isJpeg (imageCompressionData w') = true -> jpegSelectable w' = true).
Proof.
  destruct w as [f c cs js de qe].
  destruct f as [[| | |]|]; destruct c as [[| |]|];
    cbv; repeat split; intros; try reflexivity; discriminate.
Qed.

(** X18: running the handler of the format box a second time changes
    nothing. *)
Theorem imageFormatChanged_idempotent (w : DialogWidgets) :
  imageFormatChanged (imageFormatChanged w) = imageFormatChanged w.
Proof.
  destruct w as [f c cs js de qe].
  destruct f as [[| | |]|]; destruct c as [[| |]|]; reflexivity.
Qed.

(** X19: the quality controls follow the compression through a change of
    format: if they are enabled for JPEG exactly before the handler of the
    format box, they are so after it, also when the handler has replaced the
    compression. *)
Theorem imageFormatChanged_keeps_quality_controls
    (w : DialogWidgets)
    (Hquality : compressionQualityEnabled w = isJpeg (imageCompressionData w)) :
  compressionQualityEnabled (imageFormatChanged w)
  = isJpeg (imageCompressionData (imageFormatChanged w)).
Proof.
  destruct w as [f c cs js de qe]. cbn in Hquality. subst qe.
  destruct f as [[| | |]|]; destruct c as [[| |]|]; reflexivity.
Qed.

(** ** The dialog loop *)

Section DialogFacts.
Variable baseName : string -> string.
Variable completeBaseName : string -> string.
Variable selectedSources : list string.

Lemma last_of_nonempty {A} (l : list A) (a d d' : A) :
  l <> [] -> last (a :: l) d = last l d'.
Proof.
  revert a. induction l as [|b l IH]; intros a Hl; [congruence|].
  destruct l as [|c l]; [reflexivity|].
  change (last (a :: b :: c :: l) d) with (last (b :: c :: l) d).
  rewrite (IH b) by discriminate. symmetry.
  change (last (b :: c :: l) d') with (last (c :: l) d'). reflexivity.
Qed.

Lemma criticals_app (a b : list DialogEvent) : criticals (a ++ b) = criticals a ++ criticals b.
Proof.
  induction a as [|e a IH]; [reflexivity|]. destruct e; cbn [app criticals]; now rewrite IH.
Qed.

Lemma openDocuments_app (a b : list DialogEvent) :
  forall open, openDocuments (a ++ b) open = openDocuments b (openDocuments a open).
Proof.
  induction a as [|e a IH]; intros open; [reflexivity|].
  destruct e; cbn [app openDocuments]; apply IH.
Qed.

(** A round that ends in a retry: the loop goes on with the base name of the
    chosen file, one more message box, and no document left open. *)
Lemma dialogLoop_retry (r : DialogResponse) (rest : list DialogResponse)
    (filebasename outname : string) (events : list DialogEvent) :
  isRetry r = true ->
  exists new,
    dialogLoop baseName completeBaseName selectedSources (r :: rest) filebasename outname events =
    dialogLoop baseName completeBaseName selectedSources rest
      (completeBaseName (chosenName r)) (chosenName r) (events ++ new)
    /\ criticals new = [retryMessage r]
    /\ openDocuments new [] = [].
Proof.
  unfold isRetry, retryMessage. intros Hretry.
  apply andb_true_iff in Hretry. destruct Hretry as [Hretry Hfail].
  apply andb_true_iff in Hretry. destruct Hretry as [Hexec Hname].
  apply negb_true_iff in Hname, Hfail.
  cbn [dialogLoop]. rewrite Hexec, Hname. cbn [negb].
  destruct (documentCreated r); cbn [negb].
  - cbn [andb] in Hfail. rewrite Hfail. cbn [negb].
    eexists. rewrite <- app_assoc. split; [reflexivity|]. split; [reflexivity|].
    cbn [app openDocuments filter]. now rewrite String.eqb_refl.
  - eexists. rewrite <- app_assoc. split; [reflexivity|]. split; reflexivity.
Qed.

(** The round that settles the loop. *)
Lemma dialogLoop_settles (r : DialogResponse) (rest : list DialogResponse)
    (filebasename outname : string) (events : list DialogEvent) :
  isRetry r = false ->
  exists o new,
    dialogLoop baseName completeBaseName selectedSources (r :: rest) filebasename outname events =
    Some o
    /\ dlg_events o = events ++ new
    /\ dlg_accepted o = isSuccess r
    /\ criticals new = []
    /\ openDocuments new [] = (if isSuccess r then [chosenName r] else [])
    /\ dlg_filebasename o =
         (if execAccepted r && negb (chosenName r =? "")%string
          then completeBaseName (chosenName r) else filebasename).
Proof.
  unfold isRetry, isSuccess. intros Hsettled. cbn [dialogLoop].
  destruct (execAccepted r); cbn [negb andb] in *.
  - destruct (chosenName r =? "")%string; cbn [negb andb] in *.
    + do 2 eexists. split; [reflexivity|]. cbn [dlg_events dlg_accepted dlg_filebasename].
      repeat split; reflexivity.
    + apply negb_false_iff in Hsettled. apply andb_true_iff in Hsettled.
      destruct Hsettled as [Hdoc Hfont]. rewrite Hdoc, Hfont. cbn [negb].
      do 2 eexists. split; [reflexivity|]. cbn [dlg_events dlg_accepted dlg_filebasename].
      rewrite <- app_assoc. repeat split; reflexivity.
  - do 2 eexists. split; [reflexivity|]. cbn [dlg_events dlg_accepted dlg_filebasename].
    rewrite app_nil_r. repeat split; reflexivity.
Qed.

Lemma dialogLoop_spec (retries : list DialogResponse) (final : DialogResponse)
    (rest : list DialogResponse) :
  Forall (fun r => isRetry r = true) retries -> isRetry final = false ->
  forall (filebasename outname : string) (events : list DialogEvent),
  exists o new,
    dialogLoop baseName completeBaseName selectedSources (retries ++ final :: rest)
      filebasename outname events = Some o
    /\ dlg_events o = events ++ new
    /\ dlg_accepted o = isSuccess final
    /\ criticals new = map retryMessage retries
    /\ openDocuments new [] = (if isSuccess final then [chosenName final] else [])
    /\ dlg_filebasename o =
         last (map (fun r => completeBaseName (chosenName r))
                   (retries ++
                    if execAccepted final && negb (chosenName final =? "")%string
                    then [final] else []))
              filebasename.
Proof.
  intros Hretries Hfinal. induction Hretries as [|r retries Hr _ IH];
    intros filebasename outname events.
  - destruct (dialogLoop_settles final rest filebasename outname events Hfinal)
      as (o & new & Hloop & Hev & Hacc & Hcrit & Hopen & Hbase).
    exists o, new. cbn [app map]. repeat split; try assumption.
    rewrite Hbase. destruct (execAccepted final && negb (chosenName final =? "")%string);
      reflexivity.
  - destruct (dialogLoop_retry r (retries ++ final :: rest) filebasename outname events Hr)
      as (new1 & Hstep & Hcrit1 & Hopen1).
    destruct (IH (completeBaseName (chosenName r)) (chosenName r) (events ++ new1))
      as (o & new & Hloop & Hev & Hacc & Hcrit & Hopen & Hbase).
    exists o, (new1 ++ new). cbn [app]. rewrite Hstep, Hloop.
    split; [reflexivity|]. split; [now rewrite Hev, app_assoc|].
    split; [assumption|].
    split; [now rewrite criticals_app, Hcrit1, Hcrit|].
    split; [now rewrite openDocuments_app, Hopen1|].
    rewrite Hbase. cbn [map].
    destruct (map (fun r0 => completeBaseName (chosenName r0))
                  (retries ++
                   (if execAccepted final && negb (chosenName final =? "")%string
                    then [final] else []))) as [|n names] eqn:Hnames; [reflexivity|].
    symmetry. apply last_of_nonempty. discriminate.
Qed.

(** X20: the dialog loop goes round once for every failure to create the
    document or its font, showing one message box for each, and is settled by
    the first round that is not such a failure; the run goes on to export
    exactly when that round produced a document and a font, and no document
    of an earlier round is left open. *)
Theorem dialogLoop_retries_until_settled
    (retries : list DialogResponse) (final : DialogResponse) (rest : list DialogResponse)
    (filebasename outname : string)
    (Hretries : Forall (fun r => isRetry r = true) retries)
    (Hfinal : isRetry final = false) :
  exists o,
    dialogLoop baseName completeBaseName selectedSources (retries ++ final :: rest)
      filebasename outname [] = Some o
    /\ dlg_accepted o = isSuccess final
    /\ criticals (dlg_events o) = map retryMessage retries
    /\ openDocuments (dlg_events o) [] = (if isSuccess final then [chosenName final] else []).
Proof.
  destruct (dialogLoop_spec retries final rest Hretries Hfinal filebasename outname [])
    as (o & new & Hloop & Hev & Hacc & Hcrit & Hopen & _).
  exists o. cbn [app] in Hev. rewrite Hev. repeat split; assumption.
Qed.

(** X21: the loop leaves [filebasename] at the base name of the last file
    name chosen in any round, also in a round that failed and also when the
    run is given up afterwards; it is left as it was only if no name was ever
    chosen. *)
Theorem dialogLoop_leaves_last_chosen_basename
    (retries : list DialogResponse) (final : DialogResponse) (rest : list DialogResponse)
    (filebasename outname : string)
    (Hretries : Forall (fun r => isRetry r = true) retries)
    (Hfinal : isRetry final = false) :
  exists o,
    dialogLoop baseName completeBaseName selectedSources (retries ++ final :: rest)
      filebasename outname [] = Some o
    /\ dlg_filebasename o =
         last (map (fun r => completeBaseName (chosenName r))
                   (retries ++
                    if execAccepted final && negb (chosenName final =? "")%string
                    then [final] else []))
              filebasename.
Proof.
  destruct (dialogLoop_spec retries final rest Hretries Hfinal filebasename outname [])
    as (o & new & Hloop & _ & _ & _ & _ & Hbase).
  exists o. split; assumption.
Qed.
End DialogFacts.

(** ** The further properties on the samples *)

Lemma walk_never_sets_font_size_without_detection_witness :
  useDetectedFontSizes (sampleSettings false) = false
  /\ exists added,
       sampleCalls (sampleSettings false) (pageItem illustratedPage) = [] ++ added
       /\ forallb (fun c => negb (isSetFontSizeCall c)) added = true.
Proof.
  split; [reflexivity|].
  exact (walk_never_sets_font_size_without_detection
           (H := PoDoFo_PDFPainter sampleExternal)
           (getSelection sampleExternal (mkDisplayerSetup 1 300 (of_int 0)))
           (sampleSettings false) (of_int 1) (pageItem illustratedPage) samplePainter eq_refl).
Defined.

Lemma walk_never_draws_images_in_overlay_mode_witness :
  overlay overlaySettings = true
  /\ exists added,
       sampleCalls overlaySettings (pageItem illustratedPage) = [] ++ added
       /\ forallb (fun c => negb (isDrawImageCall c)) added = true.
Proof.
  split; [reflexivity|].
  exact (walk_never_draws_images_in_overlay_mode
           (H := PoDoFo_PDFPainter sampleExternal)
           (getSelection sampleExternal (mkDisplayerSetup 1 300 (of_int 0)))
           overlaySettings (of_int 1) (pageItem illustratedPage) samplePainter eq_refl).
Defined.

(** Outside overlay mode the picture of the sample page is drawn, once. *)
Example picture_is_drawn_outside_overlay_mode :
  map isDrawImageCall (sampleCalls (sampleSettings false) (pageItem illustratedPage)) =
  [true; false; false].
Proof. vm_compute. reflexivity. Qed.

Lemma line_draws_every_word_at_its_own_place_witness :
  isEnabled mixedLine = true
  /\ itemClass mixedLine = "ocr_line"%string
  /\ uniformizeLineSpacing (sampleSettings false) = false
  /\ sampleCalls (sampleSettings false) mixedLine =
       [CallDrawText (of_int 100) (of_int 247) "Hello";
        CallDrawText (of_int 400) (of_int 247) "World"].
Proof.
  split; [reflexivity|]. split; [reflexivity|]. split; [reflexivity|].
  unfold sampleCalls.
  rewrite (line_draws_every_word_at_its_own_place
             (H := PoDoFo_PDFPainter sampleExternal)
             (getSelection sampleExternal (mkDisplayerSetup 1 300 (of_int 0)))
             (sampleSettings false) (of_int 1) mixedLine samplePainter eq_refl eq_refl eq_refl).
  vm_compute. reflexivity.
Defined.

Lemma disabled_child_is_skipped_by_the_recursion_witness :
  visitsChildren (sampleSettings false) "ocr_carea" = true
  /\ isEnabled (footnote false) = false
  /\ sampleCalls (sampleSettings false)
       (column ([picture] ++ footnote false :: [helloWorld true])) =
     sampleCalls (sampleSettings false) (column ([picture] ++ [helloWorld true])).
Proof.
  split; [reflexivity|]. split; [reflexivity|].
  unfold sampleCalls, column.
  exact (f_equal calls (disabled_child_is_skipped_by_the_recursion
                 (H := Recorder_PDFPainter _ (H := PoDoFo_PDFPainter sampleExternal))
                 (getSelection sampleExternal (mkDisplayerSetup 1 300 (of_int 0)))
                 (sampleSettings false) (of_int 1)
                 true "ocr_carea" (mkQRect 100 200 700 400) 0 (of_int 0) ""
                 [picture] [helloWorld true] (footnote false)
                 samplePainter eq_refl eq_refl)).
Defined.

(** The same child, enabled, is drawn: its word comes between the picture
    and the words of the paragraph after it. *)
Example enabled_child_is_drawn :
  drawnTexts (sampleCalls (sampleSettings false)
                (column ([picture] ++ footnote true :: [helloWorld true])))
    = ["Note"; "Hello"; "World"]%string
  /\ drawnTexts (sampleCalls (sampleSettings false)
                   (column ([picture] ++ footnote false :: [helloWorld true])))
    = ["Hello"; "World"]%string.
Proof. split; vm_compute; reflexivity. Qed.

Lemma uniform_paragraph_ignores_line_geometry_witness :
  isEnabled (threeLines true) = true /\ isEnabled (threeLines false) = true
  /\ itemClass (threeLines true) = "ocr_par"%string
  /\ itemClass (threeLines false) = "ocr_par"%string
  /\ uniformizeLineSpacing (sampleSettings true) = true
  /\ bbox (threeLines true) = bbox (threeLines false)
  /\ option_map baseLine (hd_error (children (threeLines true))) =
     option_map baseLine (hd_error (children (threeLines false)))
  /\ map children (children (threeLines true)) = map children (children (threeLines false))
  /\ sampleCalls (sampleSettings true) (threeLines true) =
     sampleCalls (sampleSettings true) (threeLines false).
Proof.
  do 8 (split; [reflexivity|]).
  unfold sampleCalls.
  exact (f_equal calls (uniform_paragraph_ignores_line_geometry
                 (H := Recorder_PDFPainter _ (H := PoDoFo_PDFPainter sampleExternal))
                 (getSelection sampleExternal (mkDisplayerSetup 1 300 (of_int 0)))
                 (sampleSettings true) (of_int 1)
                 (threeLines true) (threeLines false) samplePainter
                 eq_refl eq_refl eq_refl eq_refl eq_refl eq_refl eq_refl eq_refl)).
Defined.

Lemma image_dictionary_follows_the_settings_witness :
  convertsFaithfully sampleExternal
  /\ 0 <= width sampleMono /\ 0 <= height sampleMono
  /\ PoDoFo_pdfImage sampleExternal
       (PoDoFo_samples sampleExternal sampleMono (monoSettings CompressFax4))
       (monoSettings CompressFax4)
     = mkPdfImage DeviceGray 10 2 1 CCITTFaxDecode (Some (10, 2, -1)) true [].
Proof.
  split; [exact sampleExternal_converts|]. split; [cbn; lia|]. split; [cbn; lia|].
  pose proof (image_dictionary_follows_the_settings sampleExternal sampleMono
                (monoSettings CompressFax4) sampleExternal_converts
                ltac:(cbn; lia) ltac:(cbn; lia)) as Hdict.
  cbn zeta in Hdict.
  destruct (PoDoFo_pdfImage sampleExternal
              (PoDoFo_samples sampleExternal sampleMono (monoSettings CompressFax4))
              (monoSettings CompressFax4)) as [cs w h bits f parms raw data] eqn:Himg.
  cbn [img_width img_height img_bitsPerComponent img_colorSpace img_filter img_decodeParms
       img_raw] in Hdict.
  destruct Hdict as (-> & -> & -> & -> & -> & -> & ->).
  apply (f_equal img_data) in Himg. cbn in Himg. now subst data.
Defined.

Lemma zip_stream_has_the_announced_length_witness :
  convertsFaithfully sampleExternal
  /\ 0 <= width sampleMono /\ 0 <= height sampleMono
  /\ colorFormat (monoSettings CompressZip) <> Format_ARGB32
  /\ compression (monoSettings CompressZip) = CompressZip
  /\ Z.of_nat (length (img_data (PoDoFo_pdfImage sampleExternal
                         (PoDoFo_samples sampleExternal sampleMono (monoSettings CompressZip))
                         (monoSettings CompressZip)))) = 4.
Proof.
  split; [exact sampleExternal_converts|]. split; [cbn; lia|]. split; [cbn; lia|].
  split; [discriminate|]. split; [reflexivity|].
  exact (zip_stream_has_the_announced_length sampleExternal sampleMono
           (monoSettings CompressZip) sampleExternal_converts
           ltac:(cbn; lia) ltac:(cbn; lia) ltac:(discriminate) eq_refl).
Defined.

Lemma overlay_pages_are_text_then_the_page_image_witness :
  comboBoxOutputMode overlayUi = 1
  /\ Forall2
       (fun pdfpage page =>
          let box := bbox (pageItem page) in
          let s := docScale (resolution page) in
          let source :=
            getSelection sampleExternal (pageSetup overlayUi page)
                         (scaledPageBox overlayUi page) in
          exists texts,
            pageContent pdfpage =
              texts ++
              [PdfDrawImage
                 (dmul (of_int (rx box)) s)
                 (dsub (pageHeight pdfpage) (dmul (of_int (ry box + rheight box)) s))
                 (PoDoFo_pdfImage sampleExternal
                    (PoDoFo_samples sampleExternal source (readSettings overlayUi))
                    (readSettings overlayUi))
                 (ddiv (dmul s (of_int (rwidth box))) (of_int (width source)))
                 (ddiv (dmul s (of_int (rheight box))) (of_int (height source)))]
            /\ forallb isTextOp texts = true)
       (documentPages (run sampleExternal overlayUi true [thumbnailPage]))
       (filter (isRendered sampleExternal) [thumbnailPage]).
Proof.
  split; [reflexivity|].
  exact (overlay_pages_are_text_then_the_page_image sampleExternal overlayUi
           [thumbnailPage] eq_refl).
Defined.

(** The overlay export of a small page: the text, then the page. *)
Example overlay_export_of_the_sample :
  map (fun pdfpage => map isTextOp (pageContent pdfpage))
      (documentPages (run sampleExternal overlayUi true [thumbnailPage])) =
  [[true; false]].
Proof. vm_compute. reflexivity. Qed.

Lemma overlay_preview_is_the_page_image_then_text_witness :
  1 <> 0 /\ true = true /\ comboBoxOutputMode overlayUi = 1
  /\ exists pix texts,
       option_map pv_pixmap
         (updatePreview sampleExternal overlayUi true (mkDisplayerSetup 1 300 (of_int 0))
            (of_int 1) 1 illustratedPage
            (Some (mkPreviewItem false None (of_int 0, of_int 0))))
       = Some (Some pix)
       /\ pix_canvas pix =
            CanvasImage (bbox (pageItem illustratedPage))
              (QPainter_image sampleExternal
                 (getSelection sampleExternal (mkDisplayerSetup 1 300 (of_int 0))
                    (bbox (pageItem illustratedPage)))
                 (readSettings overlayUi))
            :: texts
       /\ forallb isCanvasText texts = true
       /\ pix_paintedBeforeFill pix = 1%nat
       /\ pix_fill pix = FillVeil.
Proof.
  split; [discriminate|]. split; [reflexivity|]. split; [reflexivity|].
  exact (overlay_preview_is_the_page_image_then_text sampleExternal overlayUi true
           (mkDisplayerSetup 1 300 (of_int 0)) (of_int 1) 1 illustratedPage
           (mkPreviewItem false None (of_int 0, of_int 0))
           ltac:(discriminate) eq_refl eq_refl).
Defined.

Lemma imageFormatChanged_keeps_quality_controls_witness :
  compressionQualityEnabled (jpegWidgets Format_RGB888)
    = isJpeg (imageCompressionData (jpegWidgets Format_RGB888))
  /\ imageFormatChanged (mkDialogWidgets (Some Format_Mono) (Some CompressJpeg)
                           false true false true)
     = mkDialogWidgets (Some Format_Mono) (Some CompressZip) true false true false.
Proof.
  split; [reflexivity|].
  pose proof (imageFormatChanged_keeps_quality_controls
                (mkDialogWidgets (Some Format_Mono) (Some CompressJpeg) false true false true)
                eq_refl) as Hq.
  destruct (imageFormatChanged _) as [f c cs js de qe] eqn:Hw in Hq |- *.
  cbn in Hq. subst qe. vm_compute in Hw. now inversion Hw.
Defined.

Lemma dialogLoop_retries_until_settled_witness :
  Forall (fun r => isRetry r = true) [unwritableRound; fontlessRound]
  /\ isRetry rejectedRound = false
  /\ exists o,
       dialogLoop sampleBaseName sampleBaseName [] ([unwritableRound; fontlessRound]
                                                    ++ rejectedRound :: [readyRound])
         "" "" [] = Some o
       /\ dlg_accepted o = false
       /\ criticals (dlg_events o) = map retryMessage [unwritableRound; fontlessRound]
       /\ openDocuments (dlg_events o) [] = [].
Proof.
  split; [repeat constructor|]. split; [reflexivity|].
  exact (dialogLoop_retries_until_settled sampleBaseName sampleBaseName []
           [unwritableRound; fontlessRound] rejectedRound [readyRound] "" ""
           ltac:(repeat constructor) eq_refl).
Defined.

Lemma dialogLoop_leaves_last_chosen_basename_witness :
  Forall (fun r => isRetry r = true) [unwritableRound; fontlessRound]
  /\ isRetry rejectedRound = false
  /\ exists o,
       dialogLoop sampleBaseName sampleBaseName [] ([unwritableRound; fontlessRound]
                                                    ++ rejectedRound :: [])
         "scan" "" [] = Some o
       /\ dlg_accepted o = false
       /\ dlg_filebasename o = "b.pdf"%string.
Proof.
  split; [repeat constructor|]. split; [reflexivity|].
  destruct (dialogLoop_leaves_last_chosen_basename sampleBaseName sampleBaseName []
              [unwritableRound; fontlessRound] rejectedRound [] "scan" ""
              ltac:(repeat constructor) eq_refl) as (o & Hloop & Hbase).
  exists o. split; [exact Hloop|]. split; [|exact Hbase].
  vm_compute in Hloop. now inversion Hloop.
Defined.

(** ** The walk does not meet undefined behaviour *)

Lemma listAt_middle {A : Type} (before : list A) (x : A) (after : list A) :
  listAt (before ++ x :: after) (Z.of_nat (length before)) = ok x.
Proof.
  unfold listAt.
  destruct (Z.ltb_spec (Z.of_nat (length before)) 0) as [Hneg|_]; [lia|].
  rewrite Nat2Z.id, nth_error_app2, Nat.sub_diag by lia. reflexivity.
Qed.

(** A loop over the indices of a list whose body fetches the element and
    then cannot fail is the fold over the list. *)
Lemma forLoop_over_list {A S : Type} (f : A -> S -> Checked S) (step : S -> A -> S)
    (Hstep : forall x s, f x s = ok (step s x)) :
  forall (after before : list A) (s : S),
    forLoop (length after) (Z.of_nat (length before))
      (fun i s' => x <- listAt (before ++ after) i ;; f x s') s
    = ok (fold_left step after s).
Proof.
  induction after as [|x after IH]; intros before s; [reflexivity|].
  cbn [length forLoop fold_left].
  rewrite listAt_middle. cbn [andThen ok]. rewrite Hstep. cbn [andThen ok].
  replace (Z.of_nat (length before) + 1) with (Z.of_nat (length (before ++ [x])))
    by (rewrite length_app; cbn [length]; lia).
  replace (before ++ x :: after) with ((before ++ [x]) ++ after)
    by (now rewrite <- app_assoc).
  apply IH.
Qed.

Lemma forRange_over_list {A S : Type} (f : A -> S -> Checked S) (step : S -> A -> S)
    (l : list A) (s : S) :
  (forall x s', f x s' = ok (step s' x)) ->
  forRange (Z.of_nat (length l)) (fun i s' => x <- listAt l i ;; f x s') s
  = ok (fold_left step l s).
Proof.
  intros Hstep. unfold forRange. rewrite Nat2Z.id.
  exact (forLoop_over_list f step Hstep l [] s).
Qed.

Section CheckedFacts.
Context {P : Type} `{PDFPainter P}.
Variable getSelection : QRect -> QImage.
Variable pdfSettings : PDFSettings.
Variable imgScale : double.

Lemma uniformWordsChecked_ok (y : double) (baseline : Z) (lineItem : HOCRItem)
    (start : WordCursor P) :
  uniformWordsChecked pdfSettings y baseline lineItem start =
  ok (fold_left (uniformWord pdfSettings y baseline) (children lineItem) start).
Proof.
  unfold uniformWordsChecked.
  apply (forRange_over_list
           (fun wordItem st => ok (uniformWord pdfSettings y baseline st wordItem))).
  reflexivity.
Qed.

Lemma uniformLineChecked_ok (itemRect : QRect) (yInc : double) (baseline : Z)
    (lineItem : HOCRItem) (st : double * P) :
  uniformLineChecked pdfSettings itemRect yInc baseline lineItem st =
  ok (uniformLine pdfSettings itemRect yInc baseline st lineItem).
Proof.
  unfold uniformLineChecked, uniformLine. destruct st as [y painter].
  now rewrite uniformWordsChecked_ok.
Qed.

(** The branch of a uniformly spaced paragraph runs to its end, for every
    paragraph: the quotient is one of doubles, the first line is fetched
    only from a paragraph that has one, and the loops stay inside the
    lists. *)
Lemma printUniformParagraphChecked_ok (item : HOCRItem) (painter : P) :
  printUniformParagraphChecked pdfSettings item painter =
  ok (printUniformParagraph pdfSettings item painter).
Proof.
  unfold printUniformParagraphChecked, printUniformParagraph.
  cbn [divide andThen ok toDouble].
  set (yInc := ddiv _ _).
  assert (Hbase :
    (if Z.of_nat (length (children item)) >? 0
     then first <- listAt (children item) 0 ;; ok (baseLine first)
     else ok 0) =
    ok (if Z.of_nat (length (children item)) >? 0
        then match children item with c :: _ => baseLine c | [] => 0 end
        else 0)).
  { destruct (children item) as [|c rest]; reflexivity. }
  rewrite Hbase. cbn [andThen ok].
  set (baseline := if _ >? 0 then _ else _).
  rewrite (forRange_over_list
             (fun lineItem st =>
                uniformLineChecked pdfSettings (bbox item) yInc baseline lineItem st)
             (uniformLine pdfSettings (bbox item) yInc baseline)).
  - reflexivity.
  - intros lineItem st. apply uniformLineChecked_ok.
Qed.

Lemma printLineChecked_ok (item : HOCRItem) (painter : P) :
  printLineChecked pdfSettings item painter = ok (printLine pdfSettings item painter).
Proof.
  unfold printLineChecked, printLine.
  apply (forRange_over_list
           (fun wordItem p => ok (literalWord pdfSettings
                                    (of_int (rbottom (bbox item) + baseLine item)) p wordItem))).
  reflexivity.
Qed.

(** The walk runs to its end on every tree, with the result of [printChildren]. *)
Lemma printChildrenChecked_ok (item : HOCRItem) :
  forall painter : P,
    printChildrenChecked getSelection pdfSettings imgScale item painter =
    ok (printChildren getSelection pdfSettings imgScale item painter).
Proof.
  induction item as [item IH] using HOCRItem_rect_children.
  intros painter. destruct item as [en cls b bl fs t cs]. cbn [children] in IH.
  cbn [printChildrenChecked printChildren isEnabled itemClass children].
  destruct en; cbn [negb]; [|reflexivity].
  destruct ((cls =? "ocr_par")%string && uniformizeLineSpacing pdfSettings).
  { apply printUniformParagraphChecked_ok. }
  destruct ((cls =? "ocr_line")%string && negb (uniformizeLineSpacing pdfSettings)).
  { apply printLineChecked_ok. }
  destruct ((cls =? "ocr_graphic")%string && negb (overlay pdfSettings)); [reflexivity|].
  revert painter. induction IH as [|c rest Hc _ IHrest]; intros painter; [reflexivity|].
  rewrite Hc. cbn [andThen ok]. apply IHrest.
Qed.
End CheckedFacts.

(** The two undefined operations do stop a computation: the quotient of two
    ints by zero, and the first element of an empty list. *)
Example undefined_operations_are_faults :
  divide (IntValue 60) (IntValue 0) = fault DivisionByZero
  /\ listAt (@nil HOCRItem) 0 = fault IndexOutOfRange
  /\ divide (DoubleValue (of_int 60)) (IntValue 0)
     = ok (DoubleValue (ddiv (of_int 60) (of_int 0))).
Proof. repeat split. Qed.

Section EmptyParagraph.
Context {P : Type} `{PDFPainter P}.
Variable getSelection : QRect -> QImage.
Variable pdfSettings : PDFSettings.
Variable imgScale : double.

(** C8: a paragraph without children under uniform line spacing is a no-op:
    the walk returns the renderer as it got it and a recorder receives no
    call.  Run with the undefined operations of C++ made explicit, the walk
    comes to its end without meeting one: the quotient by the child count 0
    is formed in doubles (its result, an infinity or a NaN, is never used),
    the baseline of the first line is not fetched from the empty list, and
    the line loop does not run. *)
Theorem printChildren_empty_paragraph_is_noop
    (item : HOCRItem) (painter : Recorder P)
    (Hcls : itemClass item = "ocr_par"%string)
    (Huni : uniformizeLineSpacing pdfSettings = true)
    (Hnone : children item = []) :
  printChildren getSelection pdfSettings imgScale item painter = painter
  /\ calls (printChildren getSelection pdfSettings imgScale item painter) = calls painter
  /\ is_finite (ddiv (of_int (rheight (bbox item))) (of_int (Z.of_nat (length (children item)))))
     = false
  /\ printChildrenChecked getSelection pdfSettings imgScale item painter = ok painter.
Proof.
  assert (Hid : printChildren getSelection pdfSettings imgScale item painter = painter).
  { destruct (isEnabled item) eqn:Hen.
    - rewrite printChildren_uniform_paragraph by assumption.
      unfold printUniformParagraph. rewrite Hnone. reflexivity.
    - now apply printChildren_disabled. }
  assert (Hrun : printChildrenChecked getSelection pdfSettings imgScale item painter
                 = ok painter).
  { destruct item as [en cls b bl fs t cs].
    cbn [itemClass children] in Hcls, Hnone. subst cls cs.
    cbn [printChildrenChecked isEnabled itemClass]. rewrite Huni.
    destruct en; reflexivity. }
  rewrite Hid, Hnone. repeat split; [apply ddiv_zero_not_finite|exact Hrun].
Qed.
End EmptyParagraph.

Lemma printChildren_empty_paragraph_is_noop_witness :
  itemClass (paragraph true 100 200 700 60 []) = "ocr_par"%string
  /\ uniformizeLineSpacing (sampleSettings true) = true
  /\ children (paragraph true 100 200 700 60 []) = []
  /\ sampleCalls (sampleSettings true) (paragraph true 100 200 700 60 []) = []
  /\ printChildrenChecked (H := Recorder_PDFPainter _ (H := PoDoFo_PDFPainter sampleExternal))
       (getSelection sampleExternal (mkDisplayerSetup 1 300 (of_int 0)))
       (sampleSettings true) (of_int 1) (paragraph true 100 200 700 60 []) samplePainter
     = ok samplePainter.
Proof.
  split; [reflexivity|]. split; [reflexivity|]. split; [reflexivity|].
  pose proof (printChildren_empty_paragraph_is_noop
                (H := PoDoFo_PDFPainter sampleExternal)
                (getSelection sampleExternal (mkDisplayerSetup 1 300 (of_int 0)))
                (sampleSettings true) (of_int 1)
                (paragraph true 100 200 700 60 []) samplePainter
                eq_refl eq_refl eq_refl) as (_ & Hcalls & _ & Hrun).
  split; [exact Hcalls | exact Hrun].
Defined.
